(** * Usage heatmap effect (src/fx/heatmap.c): shallow embedding and properties

    The C translation unit is embedded function by function.  Fixed-width
    integers are [Z] with the wrap-around written out, [float] is IEEE-754
    binary32 through the executable specification of the Standard Library
    ([SpecFloat] at precision 24, exponent bound 128), arrays are lists whose
    out-of-range accesses are reported as undefined behaviour. *)

From Stdlib Require Import ZArith Lia Bool List QArith Qround Qpower.
From Stdlib Require Import Floats.SpecFloat.
From stdpp Require Import base option list.

Local Open Scope Z_scope.

(** ** C integer conversions *)

Module CInt.

(** Conversion to [uint16_t], [uint32_t]: reduction modulo 2^n. *)
Definition to_uint16 (z : Z) : Z := z mod 65536.
Definition to_uint32 (z : Z) : Z := z mod 4294967296.

(** Conversion of an [int] to [int16_t]: two's complement wrap (what GCC
    and Clang define for the narrowing conversion). *)
Definition to_int16 (z : Z) : Z := (z + 32768) mod 65536 - 32768.

Definition is_uint32 (z : Z) : Prop := 0 <= z < 4294967296.
Definition is_int16 (z : Z) : Prop := -32768 <= z <= 32767.

End CInt.

(** ** Undefined behaviour

    The operations of the effect index caller-supplied arrays and convert a
    [float] to an integer; both are undefined in C outside their domain.  The
    embedding makes each such event an explicit outcome. *)

Inductive ub : Type :=
  | OobKeyCounts (i : nat)      (* key_counts[i] outside the counter array *)
  | OobPixelMap (i : nat)       (* pixel_map[i] outside the pixel map *)
  | OobPixels (p : nat)         (* pixels[p] outside the frame buffer *)
  | FloatCastRange.             (* float to int16_t, value not representable *)

Inductive outcome (A : Type) : Type :=
  | Ok (a : A)
  | Undefined (u : ub).
Arguments Ok {A} a.
Arguments Undefined {A} u.

Definition obind {A B : Type} (m : outcome A) (k : A -> outcome B) : outcome B :=
  match m with
  | Ok a => k a
  | Undefined u => Undefined u
  end.

Notation "'let*' x ':=' m 'in' k" := (obind m (fun x => k))
  (at level 10, x name, m at level 100, k at level 200).

(** Array read and write; [u] names the undefined behaviour of a miss. *)
Definition load {A : Type} (u : nat -> ub) (l : list A) (i : nat) : outcome A :=
  match l !! i with
  | Some a => Ok a
  | None => Undefined (u i)
  end.

Definition store {A : Type} (u : nat -> ub) (l : list A) (i : nat) (a : A)
  : outcome (list A) :=
  if decide (i < length l)%nat then Ok (<[i := a]> l) else Undefined (u i).

(** ** IEEE-754 binary32

    [float] expressions are evaluated in single precision, rounding to
    nearest with ties to even, as on the Cortex-M targets of the firmware. *)

Module Float32.

Definition prec : Z := 24.
Definition emax : Z := 128.

Definition float : Type := spec_float.

(** Integer to [float], rounding to nearest, ties to even. *)
Definition of_Z (z : Z) : float := binary_normalize prec emax z 0 false.

Definition mul : float -> float -> float := SFmul prec emax.
Definition div : float -> float -> float := SFdiv prec emax.

(** Integral part of a finite value, the fraction discarded (toward zero). *)
Definition truncate (x : float) : option Z :=
  match x with
  | S754_zero _ => Some 0
  | S754_finite s m e => Some (cond_Zopp s (Z.shiftl (Z.pos m) e))
  | S754_infinity _ | S754_nan => None
  end.

(** The cast [(int16_t)x]: truncation; undefined when the integral part
    does not fit (C11 6.3.1.4). *)
Definition to_int16 (x : float) : outcome Z :=
  match truncate x with
  | Some z =>
      if (-32768 <=? z) && (z <=? 32767) then Ok z
      else Undefined FloatCastRange
  | None => Undefined FloatCastRange
  end.

(** The rational number a finite [float] stands for. *)
Definition to_Q (x : float) : option Q :=
  match x with
  | S754_zero _ => Some 0%Q
  | S754_finite s m e => Some (inject_Z (cond_Zopp s (Z.pos m)) * 2 ^ e)%Q
  | S754_infinity _ | S754_nan => None
  end.

(** *** Vocabulary of the rounding lemmas *)

(** Position of the fraction [a/d], [0 <= a < d], relative to one half. *)
Definition loc_frac (a d : Z) : location :=
  if a =? 0 then loc_Exact else loc_Inexact (2 * a ?= d).

(** Number of low bits that rounding the mantissa [m] at exponent [e]
    removes. *)
Definition shift_of (m e : Z) : Z := Z.max 0 (fexp prec emax (Zdigits2 m + e) - e).

(** The value of the [float] nearest to a positive integer, as an integer. *)
Definition nearest (z : Z) : Z :=
  let k := Z.max 0 (Zdigits2 z - 24) in
  round_nearest_even (z / 2 ^ k) (loc_frac (z mod 2 ^ k) (2 ^ k)) * 2 ^ k.

(** [below sx B x]: [x] is a zero, or a finite number of sign [sx] and of
    magnitude at most the integer [B]. *)
Definition below (sx : bool) (B : Z) (x : float) : Prop :=
  x = S754_zero sx \/
  exists m e, x = S754_finite sx m e /\ e <= 0 /\ Z.pos m <= B * 2 ^ (- e).

End Float32.

(** ** Data model *)

(** Error numbers of the host C library (Zephyr's errno.h). *)
Definition ENOTSUP : Z := 134.
Definition EINVAL : Z := 22.

Record fx_heatmap_config : Type := mk_config {
  pixel_map : list nat;
  pixel_map_size : nat;
  blending_mode : Z;
  color_cold_hue : Z;
  color_hot_hue : Z;
  saturation : Z;
  lightness : Z
}.

Record fx_heatmap_data : Type := mk_data {
  key_counts : list Z;
  is_active : bool
}.

(** The event of the host's event manager that the handler looks at, and
    every other kind of event of the multiplexed stream. *)
Record zmk_position_state_changed : Type := mk_position_event {
  position : Z;
  state : bool
}.

Inductive zmk_event_t : Type :=
  | PositionStateChanged (ev : zmk_position_state_changed)
  | OtherEvent (kind : nat).

Definition as_zmk_position_state_changed (event : zmk_event_t)
  : option zmk_position_state_changed :=
  match event with
  | PositionStateChanged ev => Some ev
  | OtherEvent _ => None
  end.

Record zmk_color_hsl : Type := mk_hsl { hsl_h : Z; hsl_s : Z; hsl_l : Z }.

(** A pixel of the frame buffer: its position on the board and its colour;
    the colour type belongs to the host's colour model. *)
Record rgb_fx_pixel (rgb : Type) : Type := mk_pixel {
  position_x : Z;
  position_y : Z;
  value : rgb
}.
Arguments mk_pixel {rgb} _ _ _.
Arguments position_x {rgb} _.
Arguments position_y {rgb} _.
Arguments value {rgb} _.

(** Two pixels at the same place of the board. *)
Definition same_place {rgb : Type} (a b : rgb_fx_pixel rgb) : Prop :=
  position_x a = position_x b /\ position_y a = position_y b.

(** Every physical index of the map lies inside a buffer of [n] pixels. *)
Definition map_in_range (config : fx_heatmap_config) (n : nat) : Prop :=
  Forall (fun p => (p < n)%nat) (pixel_map config).

(** The device's mutable data together with the frame scheduler of the host:
    [frame_requests] records the argument of every call of
    [zmk_rgb_fx_request_frames], latest first. *)
Record host : Type := mk_host {
  dev_data : fx_heatmap_data;
  frame_requests : list Z
}.

Definition zmk_rgb_fx_request_frames (frames : Z) (w : host) : host :=
  mk_host (dev_data w) (frames :: frame_requests w).

(** The declared shape of the device: one counter per entry of the map. *)
Definition wf_device (config : fx_heatmap_config) (data : fx_heatmap_data) : Prop :=
  length (pixel_map config) = pixel_map_size config /\
  length (key_counts data) = pixel_map_size config /\
  Forall CInt.is_uint32 (key_counts data).

(** The value range of the configuration (devicetree binding). *)
Definition valid_hues (config : fx_heatmap_config) : Prop :=
  0 <= color_cold_hue config < 360 /\ 0 <= color_hot_hue config < 360.

(** ** The effect *)

Section Heatmap.

(** Collaborators of the host firmware: the key position to pixel resolver
    and the colour model.  Their code is outside this translation unit. *)
Variable zmk_rgb_fx_get_pixel_by_key_position : Z -> nat.
Variable zmk_color_rgb : Type.
Variable zmk_hsl_to_rgb : zmk_color_hsl -> zmk_color_rgb.
Variable zmk_apply_blending_mode : zmk_color_rgb -> zmk_color_rgb -> Z -> zmk_color_rgb.

(** *** fx_heatmap_on_key_press *)

Definition fx_heatmap_on_key_press (config : fx_heatmap_config) (w : host)
    (event : zmk_event_t) : outcome (Z * host) :=
  let data := dev_data w in
  if negb (is_active data) then Ok (0, w)
  else
    match as_zmk_position_state_changed event with
    | None => Ok (- ENOTSUP, w)
    | Some pos_event =>
        if negb (state pos_event) then Ok (0, w)
        else
          let pixel_idx := zmk_rgb_fx_get_pixel_by_key_position (position pos_event) in
          if decide (pixel_map_size config <= pixel_idx)%nat then Ok (- EINVAL, w)
          else
            let* c := load OobKeyCounts (key_counts data) pixel_idx in
            let* counts' :=
              store OobKeyCounts (key_counts data) pixel_idx (CInt.to_uint32 (c + 1)) in
            let w' := mk_host (mk_data counts' (is_active data)) (frame_requests w) in
            Ok (0, zmk_rgb_fx_request_frames 1 w')
    end.

(** *** fx_heatmap_render_frame *)

(** First loop: the maximum press count, starting at 1. *)
Fixpoint max_count_loop (counts : list Z) (remaining i : nat) (max_count : Z)
  : outcome Z :=
  match remaining with
  | O => Ok max_count
  | S remaining' =>
      let* c := load OobKeyCounts counts i in
      max_count_loop counts remaining' (S i) (if max_count <? c then c else max_count)
  end.

Definition find_max_count (config : fx_heatmap_config) (data : fx_heatmap_data)
  : outcome Z :=
  max_count_loop (key_counts data) (pixel_map_size config) 0%nat 1.

(** [float usage = (float)count / (float)max_count]. *)
Definition usage_of (count max_count : Z) : Float32.float :=
  Float32.div (Float32.of_Z count) (Float32.of_Z max_count).

(** [int16_t hue_delta], after the two wrapping adjustments. *)
Definition hue_delta_of (config : fx_heatmap_config) : Z :=
  let hue_delta := CInt.to_int16 (color_hot_hue config - color_cold_hue config) in
  if 180 <? hue_delta then CInt.to_int16 (hue_delta - 360)
  else if hue_delta <? -180 then CInt.to_int16 (hue_delta + 360)
  else hue_delta.

(** [(int16_t)(hue_delta * usage)]: the product is taken in [float]. *)
Definition hue_offset (hue_delta : Z) (usage : Float32.float) : outcome Z :=
  Float32.to_int16 (Float32.mul (Float32.of_Z hue_delta) usage).

(** [while (hue >= 360) hue -= 360;] on a [uint16_t]. *)
Fixpoint hue_sub_loop (fuel : nat) (hue : Z) : Z :=
  match fuel with
  | O => hue
  | S fuel' =>
      if 360 <=? hue then hue_sub_loop fuel' (CInt.to_uint16 (hue - 360)) else hue
  end.

(** [while (hue < 0) hue += 360;] on a [uint16_t]. *)
Fixpoint hue_add_loop (fuel : nat) (hue : Z) : Z :=
  match fuel with
  | O => hue
  | S fuel' =>
      if hue <? 0 then hue_add_loop fuel' (CInt.to_uint16 (hue + 360)) else hue
  end.

(** A [uint16_t] is below 360 after at most 182 subtractions. *)
Definition hue_loop_fuel : nat := 183.

Definition normalize_hue (hue : Z) : Z :=
  hue_add_loop hue_loop_fuel (hue_sub_loop hue_loop_fuel hue).

(** The hue of one slot: lines 90 to 107. *)
Definition pixel_hue (config : fx_heatmap_config) (count max_count : Z) : outcome Z :=
  let usage := usage_of count max_count in
  let hue_delta := hue_delta_of config in
  let* off := hue_offset hue_delta usage in
  let hue := CInt.to_uint16 (color_cold_hue config + off) in
  Ok (normalize_hue hue).

Definition pixel_color (config : fx_heatmap_config) (hue : Z) : zmk_color_rgb :=
  zmk_hsl_to_rgb (mk_hsl hue (saturation config) (lightness config)).

(** Second loop: one blended write per slot. *)
Fixpoint render_loop (config : fx_heatmap_config) (counts : list Z) (max_count : Z)
    (remaining i : nat) (pixels : list (rgb_fx_pixel zmk_color_rgb))
  : outcome (list (rgb_fx_pixel zmk_color_rgb)) :=
  match remaining with
  | O => Ok pixels
  | S remaining' =>
      let* c := load OobKeyCounts counts i in
      let* hue := pixel_hue config c max_count in
      let color_rgb := pixel_color config hue in
      let* p := load OobPixelMap (pixel_map config) i in
      let* px := load OobPixels pixels p in
      let px' :=
        mk_pixel (position_x px) (position_y px)
          (zmk_apply_blending_mode (value px) color_rgb (blending_mode config)) in
      let* pixels' := store OobPixels pixels p px' in
      render_loop config counts max_count remaining' (S i) pixels'
  end.

(** [num_pixels] is a parameter of the C function that its body never
    reads; the length of [pixels] stands for it. *)
Definition fx_heatmap_render_frame (config : fx_heatmap_config)
    (data : fx_heatmap_data) (pixels : list (rgb_fx_pixel zmk_color_rgb))
  : outcome (list (rgb_fx_pixel zmk_color_rgb)) :=
  let* max_count := find_max_count config data in
  render_loop config (key_counts data) max_count (pixel_map_size config) 0%nat pixels.

(** *** Lifecycle *)

Definition fx_heatmap_start (w : host) : host :=
  zmk_rgb_fx_request_frames 1
    (mk_host (mk_data (key_counts (dev_data w)) true) (frame_requests w)).

Definition fx_heatmap_stop (w : host) : host :=
  mk_host (mk_data (key_counts (dev_data w)) false) (frame_requests w).

Fixpoint init_loop (counts : list Z) (remaining i : nat) : outcome (list Z) :=
  match remaining with
  | O => Ok counts
  | S remaining' =>
      let* counts' := store OobKeyCounts counts i 0 in
      init_loop counts' remaining' (S i)
  end.

Definition fx_heatmap_init (config : fx_heatmap_config) (w : host)
  : outcome (Z * host) :=
  let* counts' := init_loop (key_counts (dev_data w)) (pixel_map_size config) 0%nat in
  Ok (0, mk_host (mk_data counts' (is_active (dev_data w))) (frame_requests w)).

End Heatmap.

(** ** The specification's wording, for comparison with the code *)

(** "delta = hot_hue - cold_hue; if delta > 180 subtract 360; if
    delta < -180 add 360", on unbounded integers. *)
Definition spec_hue_delta (cold hot : Z) : Z :=
  let delta := hot - cold in
  if 180 <? delta then delta - 360
  else if delta <? -180 then delta + 360
  else delta.

(** "round": the nearest integer (a tie goes up). *)
Definition spec_round (q : Q) : Z := Qfloor (q + (1 # 2)).

(** "usage = UsageCounts[i] / max_count", the exact quotient. *)
Definition spec_usage (count max_count : Z) : Q :=
  (inject_Z count / inject_Z max_count)%Q.

(** "hue = cold_hue + round(delta * usage)", normalized into [0, 360). *)
Definition spec_hue (cold hot count max_count : Z) : Z :=
  (cold + spec_round (inject_Z (spec_hue_delta cold hot) * spec_usage count max_count))
    mod 360.

(** "max_count = max(1, max(UsageCounts))". *)
Definition list_max (counts : list Z) : Z := foldr Z.max 0 counts.
Definition spec_max_count (counts : list Z) : Z := Z.max 1 (list_max counts).

(** ** Sample devices *)

Definition sample_config : fx_heatmap_config :=
  mk_config [0; 1; 2]%nat 3 0 0 120 100 50.

Definition sample_data : fx_heatmap_data := mk_data [0; 10; 5] true.

Definition sample_host : host := mk_host sample_data [].

(** A resolver that sends key position [k] to slot [k]. *)
Definition sample_resolver (pos : Z) : nat := Z.to_nat pos.

(** A colour model on integers: the colour of a hue is the hue, and the
    blending modes are 0 for overwrite and anything else for additive. *)
Definition sample_hsl_to_rgb (c : zmk_color_hsl) : Z := hsl_h c.

Definition sample_blend (old new mode : Z) : Z :=
  if mode =? 0 then new else old + new.

Definition sample_pixels : list (rgb_fx_pixel Z) :=
  [mk_pixel 0 0 1; mk_pixel 1 0 2; mk_pixel 2 0 3].

(** The sample device with the additive blending mode. *)
Definition additive_config : fx_heatmap_config :=
  mk_config [0; 1; 2]%nat 3 1 0 120 100 50.

(** The sample device with a map entry beyond a buffer of three pixels. *)
Definition stray_config : fx_heatmap_config :=
  mk_config [0; 7; 2]%nat 3 0 0 120 100 50.

(** Hues one degree apart: three quarters of the delta is 0.75. *)
Definition narrow_config : fx_heatmap_config :=
  mk_config [0; 1]%nat 2 0 0 1 100 50.

Definition narrow_data : fx_heatmap_data := mk_data [3; 4] true.

(** The shorter arc from cold 10 to hot 350 runs downwards through 0. *)
Definition downward_config : fx_heatmap_config :=
  mk_config [0; 1]%nat 2 0 10 350 100 50.

Definition downward_data : fx_heatmap_data := mk_data [1; 0] true.

(** Hues on either side of 0 with the arc running upwards. *)
Definition upward_config : fx_heatmap_config :=
  mk_config [0; 1]%nat 2 0 350 10 100 50.

(** One slot whose counter holds the largest [uint32_t]. *)
Definition saturated_config : fx_heatmap_config :=
  mk_config [0]%nat 1 0 0 120 100 50.

Definition saturated_host : host := mk_host (mk_data [4294967295] true) [].

Definition press (pos : Z) : zmk_event_t :=
  PositionStateChanged (mk_position_event pos true).

(** ** Event dispatch

    The listener of a device instance hands every event of the stream to
    the handler (lines 179 to 186).  [dispatch] runs the handler over a list
    of events in order; it collects the status of each call and stops at
    undefined behaviour. *)

Fixpoint dispatch (resolver : Z -> nat) (config : fx_heatmap_config) (w : host)
    (events : list zmk_event_t) : outcome (list Z * host) :=
  match events with
  | [] => Ok ([], w)
  | event :: rest =>
      let* rw := fx_heatmap_on_key_press resolver config w event in
      let* rs := dispatch resolver config (snd rw) rest in
      Ok (fst rw :: fst rs, snd rs)
  end.

(** A press event that the resolver sends to slot [k]. *)
Definition is_press_on (resolver : Z -> nat) (k : nat) (event : zmk_event_t) : bool :=
  match as_zmk_position_state_changed event with
  | Some ev => state ev && Nat.eqb (resolver (position ev)) k
  | None => false
  end.

(** A press event that the resolver sends to a slot below [n]. *)
Definition is_press_below (resolver : Z -> nat) (n : nat) (event : zmk_event_t) : bool :=
  match as_zmk_position_state_changed event with
  | Some ev => state ev && Nat.ltb (resolver (position ev)) n
  | None => false
  end.

Fixpoint count_events (f : zmk_event_t -> bool) (events : list zmk_event_t) : nat :=
  match events with
  | [] => 0
  | event :: rest => (if f event then 1 else 0) + count_events f rest
  end.

(** The storage of an instance as the definition macro declares it (lines
    158 to 163): a static counter array, hence all zero, and a cleared
    flag. *)
Definition initial_data (config : fx_heatmap_config) : fx_heatmap_data :=
  mk_data (replicate (pixel_map_size config) 0) false.

(** The colour that the second loop blends into the pixel of a slot. *)
Definition blended {rgb : Type} (blend : rgb -> rgb -> Z -> rgb) (mode : Z)
    (color : rgb) (px : rgb_fx_pixel rgb) : rgb_fx_pixel rgb :=
  mk_pixel (position_x px) (position_y px) (blend (value px) color mode).

(** The integer that discarding the fraction of a rational leaves: the
    quotient of numerator by denominator, toward zero. *)
Definition Q_toward_zero (q : Q) : Z := Z.quot (Qnum q) (Z.pos (Qden q)).

(** The hues, in slot order, of the slots whose map entry is [p]. *)
Fixpoint hues_at (p : nat) (pmap : list nat) (hues : list Z) : list Z :=
  match pmap, hues with
  | q :: pmap', hue :: hues' =>
      if Nat.eqb q p then hue :: hues_at p pmap' hues' else hues_at p pmap' hues'
  | _, _ => []
  end.

(** ** Rounding lemmas for binary32

    What the effect needs from the arithmetic: a rounded result never passes
    an integer bound that the exact result respects, and the conversion of
    integers to [float] is monotone. *)

Module Float32Facts.

Import Float32.

Lemma loc_frac_low a d :
  0 <= a < d ->
  loc_frac (0 * d + a) (2 * d) = if a =? 0 then loc_Exact else loc_Inexact Lt.
Proof.
  intros H. unfold loc_frac. replace (0 * d + a) with a by lia.
  destruct (Z.eqb_spec a 0); [reflexivity |].
  destruct (Z.compare_spec (2 * a) (2 * d)); try lia. reflexivity.
Qed.

Lemma loc_frac_high a d :
  0 <= a < d ->
  loc_frac (1 * d + a) (2 * d) = if a =? 0 then loc_Inexact Eq else loc_Inexact Gt.
Proof.
  intros H. unfold loc_frac.
  destruct (Z.eqb_spec (1 * d + a) 0); [lia |].
  destruct (Z.eqb_spec a 0); destruct (Z.compare_spec (2 * (1 * d + a)) (2 * d));
    try lia; reflexivity.
Qed.

Lemma shr_1_spec (mrs : shr_record) (a d : Z) :
  0 <= shr_m mrs -> 0 <= a < d ->
  loc_of_shr_record mrs = loc_frac a d ->
  shr_m (shr_1 mrs) = shr_m mrs / 2 /\
  loc_of_shr_record (shr_1 mrs) = loc_frac (shr_m mrs mod 2 * d + a) (2 * d).
Proof.
  destruct mrs as [m r s]. cbn [shr_m]. intros Hm Ha Hl.
  assert (Hrs : orb r s = negb (a =? 0)).
  { revert Hl. unfold loc_frac. destruct (a =? 0); destruct r, s; cbn; congruence. }
  destruct m as [| [p | p |] | p]; [| | | | lia]; cbn [shr_1 shr_m loc_of_shr_record].
  - change (0 mod 2) with 0. rewrite loc_frac_low by lia. rewrite Hrs.
    split; [reflexivity |]. now destruct (a =? 0).
  - replace (Z.pos p~1 mod 2) with 1 by (rewrite Pos2Z.inj_xI; pose proof (Z.mod_pos_bound (2 * Z.pos p + 1) 2); pose proof (Z.div_mod (2 * Z.pos p + 1) 2); lia).
    rewrite loc_frac_high by lia. rewrite Hrs.
    split; [| now destruct (a =? 0)].
    rewrite Pos2Z.inj_xI. pose proof (Z.mod_pos_bound (2 * Z.pos p + 1) 2). pose proof (Z.div_mod (2 * Z.pos p + 1) 2). lia.
  - replace (Z.pos p~0 mod 2) with 0 by (rewrite Pos2Z.inj_xO; pose proof (Z.mod_pos_bound (2 * Z.pos p) 2); pose proof (Z.div_mod (2 * Z.pos p) 2); lia).
    rewrite loc_frac_low by lia. rewrite Hrs.
    split; [| now destruct (a =? 0)].
    rewrite Pos2Z.inj_xO. pose proof (Z.mod_pos_bound (2 * Z.pos p) 2). pose proof (Z.div_mod (2 * Z.pos p) 2). lia.
  - change (1 mod 2) with 1. rewrite loc_frac_high by lia. rewrite Hrs.
    split; [reflexivity |]. now destruct (a =? 0).
Qed.

Lemma iter_pos_nat {A : Type} (f : A -> A) (p : positive) (x : A) :
  SpecFloat.iter_pos f p x = Nat.iter (Pos.to_nat p) f x.
Proof.
  revert x. induction p as [p IH | p IH |]; intros x; cbn [SpecFloat.iter_pos].
  - rewrite !IH. rewrite <- Nat.iter_succ_r, <- Nat.iter_add. f_equal. lia.
  - rewrite !IH. rewrite <- Nat.iter_add. f_equal. lia.
  - reflexivity.
Qed.

Lemma shr_iter_spec (n : nat) (mrs : shr_record) (a d : Z) :
  0 <= shr_m mrs -> 0 <= a < d ->
  loc_of_shr_record mrs = loc_frac a d ->
  let mrs' := Nat.iter n shr_1 mrs in
  shr_m mrs' = shr_m mrs / 2 ^ Z.of_nat n /\
  loc_of_shr_record mrs' =
    loc_frac (shr_m mrs mod 2 ^ Z.of_nat n * d + a) (2 ^ Z.of_nat n * d).
Proof.
  intros Hm Ha Hl. cbv zeta. induction n as [| n IH].
  - change (Nat.iter 0 shr_1 mrs) with mrs. change (Z.of_nat 0) with 0. rewrite Z.pow_0_r, Z.div_1_r, Z.mod_1_r.
    split; [reflexivity |]. rewrite Hl. f_equal; lia.
  - change (Nat.iter (S n) shr_1 mrs) with (shr_1 (Nat.iter n shr_1 mrs)).
    destruct IH as [IHm IHl].
    assert (Hp : 0 < 2 ^ Z.of_nat n) by (apply Z.pow_pos_nonneg; lia).
    pose proof (Z.mod_pos_bound (shr_m mrs) (2 ^ Z.of_nat n) Hp) as Hb.
    destruct (shr_1_spec (Nat.iter n shr_1 mrs)
                (shr_m mrs mod 2 ^ Z.of_nat n * d + a) (2 ^ Z.of_nat n * d)) as [Sm Sl].
    + rewrite IHm. apply Z.div_pos; lia.
    + nia.
    + exact IHl.
    + rewrite Sm, Sl, IHm.
      rewrite Nat2Z.inj_succ, Z.pow_succ_r by lia.
      split.
      * rewrite Z.div_div by lia. f_equal. lia.
      * f_equal; [| lia].
        rewrite (Z.mul_comm 2 (2 ^ Z.of_nat n)).
        rewrite (Z.rem_mul_r (shr_m mrs) (2 ^ Z.of_nat n) 2) by lia. lia.
Qed.

Lemma fexp_eq (e : Z) : fexp prec emax e = Z.max (e - 24) (-149).
Proof. reflexivity. Qed.

Lemma shr_record_of_loc_spec (m : Z) (l : location) :
  shr_m (shr_record_of_loc m l) = m /\
  loc_of_shr_record (shr_record_of_loc m l) = l.
Proof. destruct l as [| []]; split; reflexivity. Qed.

Lemma shr_fexp_spec (m e a d : Z) :
  0 <= m -> 0 <= a < d ->
  exists mrs,
    shr_fexp prec emax m e (loc_frac a d) = (mrs, e + shift_of m e) /\
    shr_m mrs = m / 2 ^ shift_of m e /\
    loc_of_shr_record mrs =
      loc_frac (m mod 2 ^ shift_of m e * d + a) (2 ^ shift_of m e * d).
Proof.
  intros Hm Ha. unfold shr_fexp, shr, shift_of.
  destruct (shr_record_of_loc_spec m (loc_frac a d)) as [Rm Rl].
  destruct (fexp prec emax (Zdigits2 m + e) - e) as [| p | p] eqn:Hn.
  - exists (shr_record_of_loc m (loc_frac a d)).
    change (Z.max 0 0) with 0. rewrite Z.pow_0_r, Z.div_1_r, Z.mod_1_r, Z.add_0_r.
    repeat split; [exact Rm |]. rewrite Rl. f_equal; lia.
  - exists (SpecFloat.iter_pos shr_1 p (shr_record_of_loc m (loc_frac a d))).
    replace (Z.max 0 (Z.pos p)) with (Z.pos p) by lia.
    split; [reflexivity |].
    rewrite iter_pos_nat.
    destruct (shr_iter_spec (Pos.to_nat p) (shr_record_of_loc m (loc_frac a d)) a d)
      as [Sm Sl]; [lia | lia | exact Rl |].
    rewrite positive_nat_Z, Rm in Sm, Sl. split; assumption.
  - exists (shr_record_of_loc m (loc_frac a d)).
    replace (Z.max 0 (Z.neg p)) with 0 by lia.
    rewrite Z.pow_0_r, Z.div_1_r, Z.mod_1_r, Z.add_0_r.
    repeat split; [exact Rm |]. rewrite Rl. f_equal; lia.
Qed.

Lemma binary_round_aux_spec (sx : bool) (mx ex a d : Z) :
  0 <= mx -> 0 <= a < d ->
  let k1 := shift_of mx ex in
  let m1 := round_nearest_even (mx / 2 ^ k1)
              (loc_frac (mx mod 2 ^ k1 * d + a) (2 ^ k1 * d)) in
  let k2 := shift_of m1 (ex + k1) in
  binary_round_aux prec emax sx mx ex (loc_frac a d) =
    match m1 / 2 ^ k2 with
    | Z0 => S754_zero sx
    | Zpos m =>
        if ex + k1 + k2 <=? 104 then S754_finite sx m (ex + k1 + k2)
        else S754_infinity sx
    | Zneg _ => S754_nan
    end.
Proof.
  intros Hm Ha k1 m1 k2. unfold binary_round_aux.
  destruct (shr_fexp_spec mx ex a d Hm Ha) as (mrs1 & E1 & M1 & L1).
  rewrite E1, M1, L1. fold k1. fold m1.
  assert (Hm1 : 0 <= m1).
  { assert (0 <= mx / 2 ^ k1) by (apply Z.div_pos; [lia | apply Z.pow_pos_nonneg; unfold k1, shift_of; lia]).
    unfold m1, round_nearest_even.
    destruct (loc_frac _ _) as [| []]; try lia. destruct (Z.even _); lia. }
  destruct (shr_fexp_spec m1 (ex + k1) 0 1 Hm1 ltac:(lia)) as (mrs2 & E2 & M2 & _).
  change (loc_frac 0 1) with loc_Exact in E2. rewrite E2, M2. fold k2.
  reflexivity.
Qed.

Lemma digits2_pos_size (p : positive) : digits2_pos p = Pos.size p.
Proof. induction p; cbn; congruence. Qed.

Lemma Zdigits2_bounds (m : Z) :
  0 < m -> 2 ^ (Zdigits2 m - 1) <= m < 2 ^ Zdigits2 m.
Proof.
  destruct m as [| p | p]; try lia. intros _. cbn [Zdigits2].
  rewrite digits2_pos_size.
  pose proof (Pos.size_gt p) as Hgt. pose proof (Pos.size_le p) as Hle.
  assert (Hpow : forall q : positive, Z.pos (2 ^ q) = 2 ^ Z.pos q)
    by (intros q; now rewrite Pos2Z.inj_pow).
  apply Pos2Z.pos_lt_pos in Hgt. apply Pos2Z.pos_le_pos in Hle.
  rewrite Hpow in Hgt, Hle.
  replace (Z.pos (Pos.size p)) with (Z.succ (Z.pos (Pos.size p) - 1)) in Hle at 1 by lia.
  rewrite Z.pow_succ_r in Hle by lia. lia.
Qed.

Lemma Zdigits2_le (m n : Z) : 0 <= n -> 0 <= m < 2 ^ n -> Zdigits2 m <= n.
Proof.
  intros Hn [H0 Hlt]. destruct (Z.eq_dec m 0) as [-> | Hne]; [cbn; lia |].
  destruct (Zdigits2_bounds m ltac:(lia)) as [Hlo _].
  destruct (Z_le_gt_dec (Zdigits2 m) n) as [| Hgt]; [assumption | exfalso].
  assert (2 ^ n <= 2 ^ (Zdigits2 m - 1)) by (apply Z.pow_le_mono_r; lia). lia.
Qed.

Lemma Zdigits2_ge (m n : Z) : 2 ^ n <= m -> n < Zdigits2 m.
Proof.
  intros Hle. destruct (Z_lt_le_dec n 0) as [Hneg | Hn].
  { rewrite Z.pow_neg_r in Hle by lia. destruct m; cbn; lia. }
  assert (0 < m) by (pose proof (Z.pow_pos_nonneg 2 n); lia).
  destruct (Zdigits2_bounds m ltac:(lia)) as [_ Hhi].
  destruct (Z_lt_le_dec n (Zdigits2 m)) as [| Hge]; [assumption | exfalso].
  assert (2 ^ Zdigits2 m <= 2 ^ n) by (apply Z.pow_le_mono_r; lia). lia.
Qed.

Lemma round_nearest_even_bounds (m : Z) (l : location) :
  m <= round_nearest_even m l <= m + 1.
Proof. destruct l as [| []]; cbn; try lia. destruct (Z.even m); lia. Qed.

Lemma shift_of_nonneg (m e : Z) : 0 <= shift_of m e.
Proof. unfold shift_of. lia. Qed.

Lemma shift_of_small (m e : Z) :
  e <= 0 -> 0 <= m < 2 ^ (24 - e) -> e + shift_of m e <= 0.
Proof.
  intros He Hm. unfold shift_of. rewrite fexp_eq.
  pose proof (Zdigits2_le m (24 - e) ltac:(lia) Hm). lia.
Qed.

(** The rounded mantissa stays below a bound that is a whole number of units. *)
Lemma round_below (mx k a d B : Z) :
  0 <= mx -> 0 <= k -> 0 <= a < d ->
  mx * d + a <= B * 2 ^ k * d ->
  round_nearest_even (mx / 2 ^ k) (loc_frac (mx mod 2 ^ k * d + a) (2 ^ k * d)) <= B.
Proof.
  intros Hm Hk Ha Hle.
  assert (Hp : 0 < 2 ^ k) by (apply Z.pow_pos_nonneg; lia).
  pose proof (Z.div_mod mx (2 ^ k) ltac:(lia)) as Hdm.
  pose proof (Z.mod_pos_bound mx (2 ^ k) Hp) as Hr.
  set (q := mx / 2 ^ k) in *. set (r := mx mod 2 ^ k) in *. set (P := 2 ^ k) in *.
  unfold loc_frac. destruct (Z.eqb_spec (r * d + a) 0) as [E0 | N0].
  - cbn [round_nearest_even].
    assert (Hrd : 0 <= r * d) by (apply Z.mul_nonneg_nonneg; lia).
    assert (Ea : a = 0) by lia. assert (Er : r = 0) by nia. subst a r.
    assert (Hpd : 0 < P * d) by (apply Z.mul_pos_pos; lia).
    apply (Z.mul_le_mono_pos_l _ _ (P * d) Hpd). lia.
  - assert (Hrd : 0 <= r * d) by (apply Z.mul_nonneg_nonneg; lia).
    assert (Hpd : 0 < P * d) by (apply Z.mul_pos_pos; lia).
    assert (Hq : q < B).
    { apply (Z.mul_lt_mono_pos_l (P * d) _ _ Hpd). lia. }
    pose proof (round_nearest_even_bounds q (loc_Inexact (2 * (r * d + a) ?= P * d))). lia.
Qed.



Lemma pow2_split (a b : Z) : 0 <= a -> 0 <= b -> 2 ^ (a + b) = 2 ^ a * 2 ^ b.
Proof. intros. apply Z.pow_add_r; assumption. Qed.

Lemma binary_round_aux_le (sx : bool) (mx ex a d B : Z) :
  0 <= mx -> 0 <= a < d -> ex <= 0 -> 0 <= B < 2 ^ 24 ->
  mx * d + a <= B * 2 ^ (- ex) * d ->
  below sx B (binary_round_aux prec emax sx mx ex (loc_frac a d)).
Proof.
  intros Hm Ha Hex HB Hle.
  rewrite binary_round_aux_spec by assumption. cbv zeta.
  set (k1 := shift_of mx ex).
  set (m1 := round_nearest_even _ _).
  set (k2 := shift_of m1 (ex + k1)).
  pose proof (shift_of_nonneg mx ex) as Hk1. fold k1 in Hk1.
  pose proof (shift_of_nonneg m1 (ex + k1)) as Hk2. fold k2 in Hk2.
  assert (Hpex : 0 < 2 ^ (- ex)) by (apply Z.pow_pos_nonneg; lia).
  assert (Hmx : mx < 2 ^ (24 - ex)).
  { replace (24 - ex) with (24 + - ex) by lia. rewrite pow2_split by lia.
    assert (mx * d <= B * 2 ^ (- ex) * d) by lia.
    assert (mx <= B * 2 ^ (- ex)) by nia. nia. }
  assert (He1 : ex + k1 <= 0) by (apply shift_of_small; [lia | lia]).
  assert (Hp1 : 0 < 2 ^ k1) by (apply Z.pow_pos_nonneg; lia).
  assert (Hm1 : 0 <= m1 <= B * 2 ^ (- (ex + k1))).
  { split.
    - pose proof (round_nearest_even_bounds (mx / 2 ^ k1)
                    (loc_frac (mx mod 2 ^ k1 * d + a) (2 ^ k1 * d))) as Hb.
      fold m1 in Hb. assert (0 <= mx / 2 ^ k1) by (apply Z.div_pos; lia). lia.
    - apply round_below; try assumption.
      replace (B * 2 ^ (- (ex + k1)) * 2 ^ k1) with (B * 2 ^ (- ex)); [assumption |].
      replace (- ex) with (- (ex + k1) + k1) at 1 by lia. rewrite pow2_split by lia. ring. }
  assert (Hpe1 : 0 < 2 ^ (- (ex + k1))) by (apply Z.pow_pos_nonneg; lia).
  assert (Hm1' : m1 < 2 ^ (24 - (ex + k1))).
  { replace (24 - (ex + k1)) with (24 + - (ex + k1)) by lia. rewrite pow2_split by lia. nia. }
  assert (He2 : ex + k1 + k2 <= 0) by (apply shift_of_small; [lia | lia]).
  assert (Hp2 : 0 < 2 ^ k2) by (apply Z.pow_pos_nonneg; lia).
  assert (Hm2 : 0 <= m1 / 2 ^ k2 <= B * 2 ^ (- (ex + k1 + k2))).
  { split; [apply Z.div_pos; lia |].
    apply Z.div_le_upper_bound; [lia |].
    replace (2 ^ k2 * (B * 2 ^ (- (ex + k1 + k2)))) with (B * 2 ^ (- (ex + k1))); [lia |].
    replace (- (ex + k1)) with (- (ex + k1 + k2) + k2) at 1 by lia.
    rewrite pow2_split by lia. ring. }
  destruct (m1 / 2 ^ k2) as [| m | m] eqn:Em; [now left | | lia].
  right. exists m, (ex + k1 + k2).
  destruct (Z.leb_spec (ex + k1 + k2) 104); [| lia].
  repeat split; lia.
Qed.

Lemma pos_iter_xO (m d : positive) : Z.pos (Pos.iter xO m d) = Z.pos m * 2 ^ Z.pos d.
Proof.
  induction d as [| d IH] using Pos.peano_ind.
  - cbn [Pos.iter]. rewrite Pos2Z.inj_xO. change (2 ^ 1) with 2. lia.
  - rewrite Pos.iter_succ, Pos2Z.inj_xO, IH, Pos2Z.inj_succ, Z.pow_succ_r by lia. ring.
Qed.

(** Alignment of an integer before rounding: the value is kept, and a
    mantissa shorter than 24 bits is widened to 24 bits. *)
Lemma shl_align_spec (p : positive) :
  exists mz ez,
    shl_align p 0 (fexp prec emax (Z.pos (digits2_pos p) + 0)) = (mz, ez) /\
    ez <= 0 /\ Z.pos mz = Z.pos p * 2 ^ (- ez) /\
    ez = Z.min 0 (Zdigits2 (Z.pos p) - 24).
Proof.
  unfold shl_align. rewrite fexp_eq, Z.add_0_r, Z.sub_0_r.
  change (Z.pos (digits2_pos p)) with (Zdigits2 (Z.pos p)).
  assert (Hd : 0 < Zdigits2 (Z.pos p)) by (cbn; lia).
  destruct (Z.max (Zdigits2 (Z.pos p) - 24) (-149)) as [| q | q] eqn:E.
  - exists p, 0. repeat split; lia.
  - exists p, 0. repeat split; lia.
  - exists (Pos.iter xO p q), (Z.neg q). repeat split; try lia.
    rewrite pos_iter_xO. reflexivity.
Qed.

Lemma of_Z_pos_round (p : positive) :
  exists mz ez,
    of_Z (Z.pos p) = binary_round_aux prec emax false (Z.pos mz) ez (loc_frac 0 1) /\
    ez <= 0 /\ Z.pos mz = Z.pos p * 2 ^ (- ez) /\
    ez = Z.min 0 (Zdigits2 (Z.pos p) - 24).
Proof.
  destruct (shl_align_spec p) as (mz & ez & E & H).
  exists mz, ez. split; [| exact H].
  unfold of_Z, binary_normalize, binary_round. now rewrite E.
Qed.

Lemma of_Z_neg_round (p : positive) :
  exists mz ez,
    of_Z (Z.neg p) = binary_round_aux prec emax true (Z.pos mz) ez (loc_frac 0 1) /\
    ez <= 0 /\ Z.pos mz = Z.pos p * 2 ^ (- ez) /\
    ez = Z.min 0 (Zdigits2 (Z.pos p) - 24).
Proof.
  destruct (shl_align_spec p) as (mz & ez & E & H).
  exists mz, ez. split; [| exact H].
  unfold of_Z, binary_normalize, binary_round. now rewrite E.
Qed.

Lemma of_Z_below (z : Z) :
  Z.abs z < 2 ^ 24 -> below (z <? 0) (Z.abs z) (of_Z z).
Proof.
  intros Hz. destruct z as [| p | p].
  - left. reflexivity.
  - destruct (of_Z_pos_round p) as (mz & ez & -> & He & Hv & _).
    change (Z.pos p <? 0) with false.
    apply binary_round_aux_le; cbn [Z.abs] in *; lia.
  - destruct (of_Z_neg_round p) as (mz & ez & -> & He & Hv & _).
    change (Z.neg p <? 0) with true.
    apply binary_round_aux_le; cbn [Z.abs] in *; lia.
Qed.

Lemma mul_below (s1 s2 : bool) (B : Z) (x y : spec_float) :
  0 <= B < 2 ^ 24 ->
  below s1 B x -> below s2 1 y -> below (xorb s1 s2) B (mul x y).
Proof.
  intros HB [-> | (m1 & e1 & -> & He1 & Hm1)] [-> | (m2 & e2 & -> & He2 & Hm2)];
    try (left; reflexivity).
  unfold mul, SFmul.
  change loc_Exact with (loc_frac 0 1).
  apply binary_round_aux_le; try lia.
  rewrite Pos2Z.inj_mul.
  replace (- (e1 + e2)) with (- e1 + - e2) by lia. rewrite pow2_split by lia.
  assert (0 < 2 ^ (- e1)) by (apply Z.pow_pos_nonneg; lia).
  assert (0 < 2 ^ (- e2)) by (apply Z.pow_pos_nonneg; lia).
  nia.
Qed.

Lemma truncate_below (sx : bool) (B : Z) (x : spec_float) :
  0 <= B -> below sx B x ->
  exists t, truncate x = Some t /\
            (if sx then - B <= t <= 0 else 0 <= t <= B).
Proof.
  intros HB [-> | (m & e & -> & He & Hm)].
  - exists 0. split; [reflexivity |]. destruct sx; lia.
  - cbn [truncate]. eexists. split; [reflexivity |].
    assert (Hs : 0 <= Z.shiftl (Z.pos m) e <= B).
    { replace e with (- - e) by lia. rewrite Z.shiftl_opp_r, Z.shiftr_div_pow2 by lia.
      assert (0 < 2 ^ (- e)) by (apply Z.pow_pos_nonneg; lia).
      split; [apply Z.div_pos; lia |].
      apply Z.div_le_upper_bound; lia. }
    destruct sx; cbn [cond_Zopp]; lia.
Qed.

Lemma new_location_spec (nb k : Z) :
  0 <= k < nb -> new_location nb k = loc_frac k nb.
Proof.
  intros Hk. unfold new_location, new_location_even, new_location_odd, loc_frac.
  destruct (Z.even nb) eqn:Ev; destruct (Z.eqb_spec k 0); try reflexivity.
  f_equal.
  assert (Hodd : Z.odd nb = true) by (rewrite <- Z.negb_even, Ev; reflexivity).
  apply Z.odd_spec in Hodd. destruct Hodd as [j Hj].
  destruct (Z.compare_spec (2 * k + 1) nb); destruct (Z.compare_spec (2 * k) nb);
    try reflexivity; lia.
Qed.

Lemma pow2_pos (n : Z) : 0 <= n -> 0 < 2 ^ n.
Proof. intros. apply Z.pow_pos_nonneg; lia. Qed.

Lemma div_below (m1 m2 : positive) (e1 e2 N : Z) :
  0 <= e1 + N -> 0 <= e2 + N ->
  Z.pos m1 * 2 ^ (e1 + N) <= Z.pos m2 * 2 ^ (e2 + N) ->
  below false 1 (div (S754_finite false m1 e1) (S754_finite false m2 e2)).
Proof.
  intros H1 H2 Hle. unfold div, SFdiv, SFdiv_core_binary.
  set (d1 := Zdigits2 (Z.pos m1)). set (d2 := Zdigits2 (Z.pos m2)).
  set (e' := Z.min (fexp prec emax (d1 + e1 - (d2 + e2))) (e1 - e2)).
  assert (Hd : d1 + e1 <= d2 + e2).
  { destruct (Zdigits2_bounds (Z.pos m1) ltac:(lia)) as [Hlo _].
    destruct (Zdigits2_bounds (Z.pos m2) ltac:(lia)) as [_ Hhi].
    fold d1 in Hlo. fold d2 in Hhi.
    assert (0 < d1) by (unfold d1; cbn; lia).
    assert (0 < d2) by (unfold d2; cbn; lia).
    pose proof (pow2_pos (e1 + N) H1). pose proof (pow2_pos (e2 + N) H2).
    assert (Hc : 2 ^ (d1 - 1 + (e1 + N)) < 2 ^ (d2 + (e2 + N))).
    { rewrite (pow2_split (d1 - 1) (e1 + N)), (pow2_split d2 (e2 + N)) by lia.
      apply Z.le_lt_trans with (Z.pos m1 * 2 ^ (e1 + N)).
      - apply Z.mul_le_mono_nonneg_r; lia.
      - apply Z.le_lt_trans with (Z.pos m2 * 2 ^ (e2 + N)); [exact Hle |].
        apply Z.mul_lt_mono_pos_r; lia. }
    apply Z.pow_lt_mono_r_iff in Hc; lia. }
  assert (He' : e' <= 0) by (unfold e'; rewrite fexp_eq; lia).
  assert (Hs : 0 <= e1 - e2 - e') by (unfold e'; lia).
  set (m' := match e1 - e2 - e' with
             | 0 => Z.pos m1
             | Z.pos _ => Z.shiftl (Z.pos m1) (e1 - e2 - e')
             | Z.neg _ => 0
             end).
  assert (Hm' : m' = Z.pos m1 * 2 ^ (e1 - e2 - e')).
  { unfold m'. destruct (e1 - e2 - e') as [| p | p] eqn:E; [| | lia].
    - rewrite Z.pow_0_r. lia.
    - rewrite Z.shiftl_mul_pow2 by lia. reflexivity. }
  pose proof (Z_div_mod m' (Z.pos m2) ltac:(lia)) as Hdm.
  destruct (Z.div_eucl m' (Z.pos m2)) as [q r]. destruct Hdm as [Hq Hr].
  rewrite new_location_spec by lia.
  assert (Hq0 : 0 <= q).
  { assert (0 <= m') by (rewrite Hm'; pose proof (pow2_pos _ Hs); lia). nia. }
  cbn [xorb]. apply binary_round_aux_le; try lia.
  pose proof (pow2_pos (e2 + N) H2) as Hp2.
  apply (Z.mul_le_mono_pos_r _ _ (2 ^ (e2 + N)) Hp2).
  replace (q * Z.pos m2 + r) with m' by lia. rewrite Hm'.
  replace (Z.pos m1 * 2 ^ (e1 - e2 - e') * 2 ^ (e2 + N))
    with (Z.pos m1 * 2 ^ (e1 + N) * 2 ^ (- e')).
  2:{ rewrite <- !Z.mul_assoc, <- !pow2_split by lia. do 2 f_equal. lia. }
  pose proof (pow2_pos (- e') ltac:(lia)). nia.
Qed.

Lemma Zdigits2_unique (m n : Z) :
  2 ^ (n - 1) <= m < 2 ^ n -> 0 < n -> Zdigits2 m = n.
Proof.
  intros [Hlo Hhi] Hn.
  pose proof (Zdigits2_ge m (n - 1) Hlo).
  assert (0 <= m) by (pose proof (pow2_pos (n - 1)); lia).
  pose proof (Zdigits2_le m n ltac:(lia) ltac:(lia)). lia.
Qed.

Lemma binary_round_aux_steps (sx : bool) (mx ex k1 m1 k2 : Z) :
  0 <= mx ->
  k1 = shift_of mx ex ->
  m1 = round_nearest_even (mx / 2 ^ k1) (loc_frac (mx mod 2 ^ k1) (2 ^ k1)) ->
  k2 = shift_of m1 (ex + k1) ->
  binary_round_aux prec emax sx mx ex (loc_frac 0 1) =
    match m1 / 2 ^ k2 with
    | Z0 => S754_zero sx
    | Zpos m =>
        if ex + k1 + k2 <=? 104 then S754_finite sx m (ex + k1 + k2)
        else S754_infinity sx
    | Zneg _ => S754_nan
    end.
Proof.
  intros Hm -> -> ->. rewrite binary_round_aux_spec by lia. cbv zeta.
  now rewrite Z.mul_1_r, Z.add_0_r, Z.mul_1_r.
Qed.


Lemma of_Z_pos_shape (z : Z) :
  0 < z < 2 ^ 32 ->
  exists m e, of_Z z = S754_finite false m e /\ -23 <= e /\
              Z.pos m * 2 ^ (e + 23) = nearest z * 2 ^ 23.
Proof.
  intros Hz. destruct z as [| p | p]; try lia.
  destruct (of_Z_pos_round p) as (mz & ez & -> & He & Hv & Hez).
  pose proof (Zdigits2_bounds (Z.pos p) ltac:(lia)) as Hn.
  pose proof (Zdigits2_le (Z.pos p) 32 ltac:(lia) ltac:(lia)) as Hn32.
  assert (Hn0 : 0 < Zdigits2 (Z.pos p)) by (cbn; lia).
  unfold nearest. set (n := Zdigits2 (Z.pos p)) in *.
  destruct (Z_le_gt_dec n 24) as [Hsmall | Hbig].
  - (* at most 24 bits: the conversion is exact *)
    assert (Eez : ez = n - 24) by lia.
    assert (Hmz : 2 ^ 23 <= Z.pos mz < 2 ^ 24).
    { rewrite Hv, Eez. replace (- (n - 24)) with (24 - n) by lia.
      pose proof (pow2_pos (24 - n) ltac:(lia)).
      replace (2 ^ 23) with (2 ^ (n - 1) * 2 ^ (24 - n))
        by (rewrite <- pow2_split by lia; f_equal; lia).
      replace (2 ^ 24) with (2 ^ n * 2 ^ (24 - n))
        by (rewrite <- pow2_split by lia; f_equal; lia).
      nia. }
    assert (Hdz : Zdigits2 (Z.pos mz) = 24) by (apply Zdigits2_unique; lia).
    assert (Hk1 : 0 = shift_of (Z.pos mz) ez)
      by (unfold shift_of; rewrite Hdz, fexp_eq; lia).
    assert (Hm1 : Z.pos mz =
                  round_nearest_even (Z.pos mz / 2 ^ 0) (loc_frac (Z.pos mz mod 2 ^ 0) (2 ^ 0))).
    { rewrite Z.pow_0_r, Z.div_1_r, Z.mod_1_r. reflexivity. }
    assert (Hk2 : 0 = shift_of (Z.pos mz) (ez + 0)) by (rewrite Z.add_0_r; exact Hk1).
    rewrite (binary_round_aux_steps false (Z.pos mz) ez 0 (Z.pos mz) 0
               ltac:(lia) Hk1 Hm1 Hk2).
    rewrite Z.pow_0_r, Z.div_1_r, !Z.add_0_r.
    destruct (Z.leb_spec ez 104); [| lia].
    exists mz, ez. split; [reflexivity |]. split; [lia |].
    replace (Z.max 0 (n - 24)) with 0 by lia.
    rewrite Z.pow_0_r, Z.div_1_r, Z.mod_1_r, Z.mul_1_r.
    change (loc_frac 0 1) with loc_Exact. cbn [round_nearest_even].
    rewrite Hv, Eez. rewrite <- Z.mul_assoc, <- pow2_split by lia.
    do 2 f_equal. lia.
  - (* more than 24 bits: n - 24 of them are rounded away *)
    assert (Eez : ez = 0) by lia. clear Hez. subst ez.
    assert (Hv' : Z.pos mz = Z.pos p) by lia. rewrite Hv'.
    replace (Z.max 0 (n - 24)) with (n - 24) by lia.
    set (k := n - 24). assert (Hk0 : 0 < k) by (unfold k; lia).
    pose proof (pow2_pos k ltac:(lia)) as Hpk.
    assert (Hk1 : k = shift_of (Z.pos p) 0).
    { unfold shift_of. fold n. rewrite fexp_eq. unfold k. lia. }
    set (m1 := round_nearest_even (Z.pos p / 2 ^ k) (loc_frac (Z.pos p mod 2 ^ k) (2 ^ k))).
    assert (Hq : 2 ^ 23 <= Z.pos p / 2 ^ k < 2 ^ 24).
    { split.
      - apply Z.div_le_lower_bound; [lia |].
        rewrite <- pow2_split by lia. replace (k + 23) with (n - 1) by (unfold k; lia). lia.
      - apply Z.div_lt_upper_bound; [lia |].
        rewrite <- pow2_split by lia. replace (k + 24) with n by (unfold k; lia). lia. }
    pose proof (round_nearest_even_bounds (Z.pos p / 2 ^ k)
                  (loc_frac (Z.pos p mod 2 ^ k) (2 ^ k))) as Hb. fold m1 in Hb.
    destruct (Z_lt_le_dec m1 (2 ^ 24)) as [Hlt | Hge].
    + assert (Hd1 : Zdigits2 m1 = 24) by (apply Zdigits2_unique; lia).
      assert (Hk2 : 0 = shift_of m1 (0 + k))
        by (unfold shift_of; rewrite Hd1, fexp_eq; lia).
      rewrite (binary_round_aux_steps false (Z.pos p) 0 k m1 0
                 ltac:(lia) Hk1 eq_refl Hk2).
      rewrite Z.pow_0_r, Z.div_1_r, !Z.add_0_r, Z.add_0_l.
      destruct m1 as [| q1 | q1] eqn:Em1; try lia.
      destruct (Z.leb_spec k 104); [| unfold k in *; lia].
      exists q1, k. split; [reflexivity |]. split; [lia |].
      rewrite <- Z.mul_assoc, <- pow2_split by lia. reflexivity.
    + assert (Em1 : m1 = 2 ^ 24) by lia.
      assert (Hd1 : Zdigits2 m1 = 25) by (rewrite Em1; reflexivity).
      assert (Hk2 : 1 = shift_of m1 (0 + k))
        by (unfold shift_of; rewrite Hd1, fexp_eq; lia).
      rewrite (binary_round_aux_steps false (Z.pos p) 0 k m1 1
                 ltac:(lia) Hk1 eq_refl Hk2).
      rewrite Em1. change (2 ^ 24 / 2 ^ 1) with (Z.pos 8388608).
      destruct (Z.leb_spec (0 + k + 1) 104); [| unfold k in *; lia].
      exists 8388608%positive, (0 + k + 1). split; [reflexivity |]. split; [lia |].
      replace (0 + k + 1 + 23) with (k + 24) by lia.
      rewrite (pow2_split k 24) by lia. lia.
Qed.

Lemma round_nearest_even_mono (P c m : Z) :
  0 < P -> 0 <= c <= m ->
  round_nearest_even (c / P) (loc_frac (c mod P) P) <=
  round_nearest_even (m / P) (loc_frac (m mod P) P).
Proof.
  intros HP Hcm.
  pose proof (Z.div_mod c P ltac:(lia)) as Hc. pose proof (Z.mod_pos_bound c P HP) as Hrc.
  pose proof (Z.div_mod m P ltac:(lia)) as Hm. pose proof (Z.mod_pos_bound m P HP) as Hrm.
  assert (Hq : c / P <= m / P) by (apply Z.div_le_mono; lia).
  pose proof (round_nearest_even_bounds (c / P) (loc_frac (c mod P) P)) as Bc.
  pose proof (round_nearest_even_bounds (m / P) (loc_frac (m mod P) P)) as Bm.
  destruct (Z.eq_dec (c / P) (m / P)) as [E | N]; [| lia].
  assert (Hr : c mod P <= m mod P) by (rewrite E in Hc; nia).
  rewrite E. clear Bc Bm. unfold loc_frac.
  destruct (Z.eqb_spec (c mod P) 0); destruct (Z.eqb_spec (m mod P) 0);
    destruct (Z.compare_spec (2 * (c mod P)) P);
    destruct (Z.compare_spec (2 * (m mod P)) P);
    cbn [round_nearest_even]; try lia; destruct (Z.even (m / P)); lia.
Qed.

Lemma nearest_upper (z : Z) : 0 < z -> nearest z <= 2 ^ Zdigits2 z.
Proof.
  intros Hz. unfold nearest.
  destruct (Zdigits2_bounds z Hz) as [_ Hhi].
  assert (Hn : 0 < Zdigits2 z) by (destruct z; cbn; lia).
  set (n := Zdigits2 z) in *. set (k := Z.max 0 (n - 24)).
  pose proof (pow2_pos k ltac:(lia)) as Hpk.
  assert (Hr : round_nearest_even (z / 2 ^ k) (loc_frac (z mod 2 ^ k) (2 ^ k)) <= 2 ^ (n - k)).
  { pose proof (round_below z k 0 1 (2 ^ (n - k)) ltac:(lia) ltac:(lia) ltac:(lia)) as H.
    rewrite !Z.mul_1_r, !Z.add_0_r in H. apply H.
    rewrite <- pow2_split by lia. replace (n - k + k) with n by lia. lia. }
  assert (E : 2 ^ n = 2 ^ (n - k) * 2 ^ k)
    by (rewrite <- pow2_split by lia; f_equal; lia).
  rewrite E. apply Z.mul_le_mono_nonneg_r; lia.
Qed.

Lemma nearest_lower (z : Z) : 0 < z -> 2 ^ (Zdigits2 z - 1) <= nearest z.
Proof.
  intros Hz. unfold nearest.
  destruct (Zdigits2_bounds z Hz) as [Hlo _].
  assert (Hn : 0 < Zdigits2 z) by (destruct z; cbn; lia).
  set (n := Zdigits2 z) in *. set (k := Z.max 0 (n - 24)).
  pose proof (pow2_pos k ltac:(lia)) as Hpk.
  pose proof (round_nearest_even_bounds (z / 2 ^ k) (loc_frac (z mod 2 ^ k) (2 ^ k))) as Hb.
  assert (Hq : 2 ^ (n - 1 - k) <= z / 2 ^ k).
  { apply Z.div_le_lower_bound; [lia |].
    rewrite <- pow2_split by lia. replace (k + (n - 1 - k)) with (n - 1) by lia. lia. }
  assert (E : 2 ^ (n - 1) = 2 ^ (n - 1 - k) * 2 ^ k)
    by (rewrite <- pow2_split by lia; f_equal; lia).
  rewrite E. apply Z.mul_le_mono_nonneg_r; lia.
Qed.

Lemma Zdigits2_mono (c m : Z) : 0 < c <= m -> Zdigits2 c <= Zdigits2 m.
Proof.
  intros H.
  destruct (Zdigits2_bounds c ltac:(lia)) as [Hlo _].
  pose proof (Zdigits2_ge m (Zdigits2 c - 1) ltac:(lia)). lia.
Qed.

Lemma nearest_mono (c m : Z) : 0 < c <= m -> nearest c <= nearest m.
Proof.
  intros H. pose proof (Zdigits2_mono c m H) as Hd.
  destruct (Z.eq_dec (Z.max 0 (Zdigits2 c - 24)) (Z.max 0 (Zdigits2 m - 24))) as [E | N].
  - unfold nearest. rewrite E. set (k := Z.max 0 (Zdigits2 m - 24)).
    pose proof (pow2_pos k ltac:(lia)).
    apply Z.mul_le_mono_nonneg_r; [lia |].
    apply round_nearest_even_mono; lia.
  - pose proof (nearest_upper c ltac:(lia)). pose proof (nearest_lower m ltac:(lia)).
    assert (2 ^ Zdigits2 c <= 2 ^ (Zdigits2 m - 1)) by (apply Z.pow_le_mono_r; lia).
    lia.
Qed.

Lemma usage_below (c m : Z) :
  0 <= c <= m -> 1 <= m < 2 ^ 32 -> below false 1 (div (of_Z c) (of_Z m)).
Proof.
  intros Hc Hm.
  destruct (of_Z_pos_shape m ltac:(lia)) as (m2 & e2 & E2 & He2 & Hv2).
  destruct (Z.eq_dec c 0) as [-> | Hc0].
  - rewrite E2. left. reflexivity.
  - destruct (of_Z_pos_shape c ltac:(lia)) as (m1 & e1 & E1 & He1 & Hv1).
    rewrite E1, E2. apply (div_below m1 m2 e1 e2 23); try lia.
    rewrite Hv1, Hv2. apply Z.mul_le_mono_nonneg_r; [lia |].
    apply nearest_mono. lia.
Qed.

(** The rational value of a number below [B] lies between 0 and [B]. *)
Lemma below_to_Q (B : Z) (x : float) :
  0 <= B -> below false B x ->
  exists q, to_Q x = Some q /\ (0 <= q)%Q /\ (q <= inject_Z B)%Q.
Proof.
  intros HB [-> | (m & e & -> & He & Hm)].
  - exists 0%Q. split; [reflexivity |]. split; [apply Qle_refl |].
    change 0%Q with (inject_Z 0). now rewrite <- Zle_Qle.
  - cbn [to_Q cond_Zopp]. eexists. split; [reflexivity |].
    assert (Hp : (0 < 2 ^ (- e))%Q) by (apply Qpower_0_lt; reflexivity).
    assert (Hm0 : (0 <= inject_Z (Z.pos m))%Q)
      by (change 0%Q with (inject_Z 0); rewrite <- Zle_Qle; lia).
    split.
    + apply Qmult_le_0_compat; [exact Hm0 |].
      apply Qlt_le_weak, Qpower_0_lt. reflexivity.
    + replace e with (- - e) at 1 by lia. rewrite Qpower_opp.
      apply Qle_shift_div_r; [exact Hp |].
      change 2%Q with (inject_Z 2). rewrite <- Zpower_Qpower by lia.
      rewrite <- inject_Z_mult, <- Zle_Qle. exact Hm.
Qed.

(** The cast of the interpolation product is defined: with a usage of at most
    one the truncated product lies between 0 and [d]. *)
Lemma product_truncates (d : Z) (u : float) :
  Z.abs d < 2 ^ 24 -> below false 1 u ->
  exists t, truncate (mul (of_Z d) u) = Some t /\
            (if d <? 0 then d <= t <= 0 else 0 <= t <= d).
Proof.
  intros Hd Hu.
  assert (HB : 0 <= Z.abs d < 2 ^ 24) by lia.
  pose proof (mul_below (d <? 0) false (Z.abs d) (of_Z d) u HB
                (of_Z_below d Hd) Hu) as Hb.
  rewrite xorb_false_r in Hb.
  destruct (truncate_below _ _ _ (proj1 HB) Hb) as (t & Et & Ht).
  exists t. split; [exact Et |].
  destruct (Z.ltb_spec d 0); lia.
Qed.

End Float32Facts.

(** ** Key events *)

Section KeyEvents.

Variable resolver : Z -> nat.

Local Abbreviation on_key_press := (fx_heatmap_on_key_press resolver).

Lemma load_lookup {A : Type} (u : nat -> ub) (xs : list A) (i : nat) (a : A) :
  xs !! i = Some a -> load u xs i = Ok a.
Proof. intros E. unfold load. now rewrite E. Qed.

Lemma store_in_range {A : Type} (u : nat -> ub) (xs : list A) (i : nat) (a : A) :
  (i < length xs)%nat -> store u xs i a = Ok (<[i := a]> xs).
Proof. intros E. unfold store. destruct (decide (i < length xs)%nat); [reflexivity | lia]. Qed.

(** The one path of the handler that writes: an accepted press. *)
Lemma on_key_press_accepted config w ev c :
  is_active (dev_data w) = true ->
  state ev = true ->
  key_counts (dev_data w) !! resolver (position ev) = Some c ->
  (resolver (position ev) < pixel_map_size config)%nat ->
  on_key_press config w (PositionStateChanged ev) =
    Ok (0, mk_host
             (mk_data (<[resolver (position ev) := CInt.to_uint32 (c + 1)]>
                         (key_counts (dev_data w))) true)
             (1 :: frame_requests w)).
Proof.
  intros Hact Hst Hc Hlt. unfold fx_heatmap_on_key_press. cbn.
  rewrite Hact, Hst. cbn.
  destruct (decide (pixel_map_size config <= resolver (position ev))%nat); [lia |].
  rewrite (load_lookup _ _ _ _ Hc). cbn.
  rewrite store_in_range by (eapply lookup_lt_Some; eassumption).
  reflexivity.
Qed.

(** The path of the range check. *)
Lemma on_key_press_rejected config w ev :
  is_active (dev_data w) = true ->
  state ev = true ->
  (pixel_map_size config <= resolver (position ev))%nat ->
  on_key_press config w (PositionStateChanged ev) = Ok (- EINVAL, w).
Proof.
  intros Hact Hst Hge. unfold fx_heatmap_on_key_press. cbn.
  rewrite Hact, Hst. cbn.
  destruct (decide (pixel_map_size config <= resolver (position ev))%nat); [reflexivity | lia].
Qed.

(** The path of an event of another kind. *)
Lemma on_key_press_not_position config w kind :
  on_key_press config w (OtherEvent kind) =
    Ok (if is_active (dev_data w) then - ENOTSUP else 0, w).
Proof.
  unfold fx_heatmap_on_key_press. cbn. now destruct (is_active (dev_data w)).
Qed.

(** C3: an active press whose resolved index is not below the map size is
    answered with -EINVAL and the whole state, counters included, is the
    one before the call. *)
Theorem on_key_press_invalid_index config w ev :
  is_active (dev_data w) = true ->
  state ev = true ->
  (pixel_map_size config <= resolver (position ev))%nat ->
  on_key_press config w (PositionStateChanged ev) = Ok (- EINVAL, w) /\
  - EINVAL <> 0.
Proof.
  intros Hact Hst Hge. split; [now apply on_key_press_rejected | discriminate].
Qed.

(** C4 (amended): an event that is not a key position event never changes
    the state; the answer is -ENOTSUP while the effect is active and 0
    while it is not. *)
Theorem on_key_press_other_event config w kind :
  on_key_press config w (OtherEvent kind) =
    Ok (if is_active (dev_data w) then - ENOTSUP else 0, w).
Proof. apply on_key_press_not_position. Qed.

(** C10: while inactive every event is answered with 0 and changes
    nothing, and an answer of -ENOTSUP implies that the effect is active. *)
Theorem on_key_press_inactive_succeeds config w event :
  (is_active (dev_data w) = false -> on_key_press config w event = Ok (0, w)) /\
  (forall w', on_key_press config w event = Ok (- ENOTSUP, w') ->
              is_active (dev_data w) = true).
Proof.
  split.
  - intros Hact. unfold fx_heatmap_on_key_press. cbn. now rewrite Hact.
  - intros w' H. destruct (is_active (dev_data w)) eqn:Hact; [reflexivity |].
    unfold fx_heatmap_on_key_press in H. cbn in H. rewrite Hact in H. cbn in H.
    inversion H.
Qed.

(** C5 (amended): on a device of the declared shape the handler never
    faults; an active press with an in-range index replaces exactly the
    entry at that index by its successor modulo 2^32, leaves every other
    entry as it was and requests one frame; a release and any event while
    inactive return 0 with the state unchanged; and these are the only
    calls after which the counters differ. *)
Theorem on_key_press_counts config w event :
  wf_device config (dev_data w) ->
  (forall ev, event = PositionStateChanged ev ->
     is_active (dev_data w) = true -> state ev = true ->
     (resolver (position ev) < pixel_map_size config)%nat ->
     exists c w',
       key_counts (dev_data w) !! resolver (position ev) = Some c /\
       on_key_press config w event = Ok (0, w') /\
       key_counts (dev_data w') !! resolver (position ev) = Some ((c + 1) mod 2 ^ 32) /\
       (forall j, j <> resolver (position ev) ->
          key_counts (dev_data w') !! j = key_counts (dev_data w) !! j) /\
       length (key_counts (dev_data w')) = length (key_counts (dev_data w)) /\
       is_active (dev_data w') = true /\
       frame_requests w' = 1 :: frame_requests w) /\
  (forall ev, event = PositionStateChanged ev -> state ev = false ->
     on_key_press config w event = Ok (0, w)) /\
  (is_active (dev_data w) = false -> on_key_press config w event = Ok (0, w)) /\
  (exists r w', on_key_press config w event = Ok (r, w') /\
     (key_counts (dev_data w') <> key_counts (dev_data w) ->
      is_active (dev_data w) = true /\
      exists ev, event = PositionStateChanged ev /\ state ev = true /\
                 (resolver (position ev) < pixel_map_size config)%nat)).
Proof.
  intros (_ & Hlen & _).
  split; [| split; [| split]].
  - intros ev -> Hact Hst Hlt.
    destruct (lookup_lt_is_Some_2 (key_counts (dev_data w)) (resolver (position ev)))
      as [c Hc]; [lia |].
    exists c. eexists. split; [exact Hc |].
    split; [apply (on_key_press_accepted config w ev c); assumption |]. cbn.
    assert (Hin : (resolver (position ev) < length (key_counts (dev_data w)))%nat) by lia.
    repeat split.
    + now rewrite list_lookup_insert_eq.
    + intros j Hj. now rewrite list_lookup_insert_ne.
    + apply length_insert.
  - intros ev -> Hst. unfold fx_heatmap_on_key_press. cbn. rewrite Hst.
    now destruct (is_active (dev_data w)).
  - intros Hact. unfold fx_heatmap_on_key_press. cbn. now rewrite Hact.
  - destruct (is_active (dev_data w)) eqn:Hact.
    2:{ exists 0, w. split; [| congruence].
        unfold fx_heatmap_on_key_press. cbn. now rewrite Hact. }
    destruct event as [ev | kind].
    2:{ exists (- ENOTSUP), w. split; [| congruence].
        rewrite on_key_press_other_event. now rewrite Hact. }
    destruct (state ev) eqn:Hst.
    2:{ exists 0, w. split; [| congruence].
        unfold fx_heatmap_on_key_press. cbn. now rewrite Hact, Hst. }
    destruct (decide (pixel_map_size config <= resolver (position ev))%nat) as [Hge | Hlt].
    { exists (- EINVAL), w. split; [| congruence].
      now apply on_key_press_invalid_index. }
    destruct (lookup_lt_is_Some_2 (key_counts (dev_data w)) (resolver (position ev)))
      as [c Hc]; [lia |].
    eexists _, _. split; [apply (on_key_press_accepted config w ev c); auto; lia |].
    intros _. split; [reflexivity |]. exists ev. repeat split; auto; lia.
Qed.

End KeyEvents.

(** ** Hue arithmetic *)

Lemma to_int16_small (z : Z) : -32768 <= z <= 32767 -> CInt.to_int16 z = z.
Proof. intros H. unfold CInt.to_int16. rewrite Z.mod_small by lia. lia. Qed.

Lemma to_int16_range (z : Z) : CInt.is_int16 (CInt.to_int16 z).
Proof.
  unfold CInt.is_int16, CInt.to_int16.
  pose proof (Z.mod_pos_bound (z + 32768) 65536 ltac:(lia)). lia.
Qed.

(** Whatever the two configured hues are, the adjusted delta is an
    [int16_t] value, and not one of the extreme ones. *)
Lemma hue_delta_of_range (config : fx_heatmap_config) :
  -32408 <= hue_delta_of config <= 32407.
Proof.
  unfold hue_delta_of.
  pose proof (to_int16_range (color_hot_hue config - color_cold_hue config)) as H.
  unfold CInt.is_int16 in H.
  set (d := CInt.to_int16 (color_hot_hue config - color_cold_hue config)) in *.
  destruct (Z.ltb_spec 180 d).
  - rewrite to_int16_small by lia. lia.
  - destruct (Z.ltb_spec d (-180)); [rewrite to_int16_small by lia |]; lia.
Qed.

(** On configured hues the code's delta is the one the specification words. *)
Lemma hue_delta_of_spec (config : fx_heatmap_config) :
  valid_hues config ->
  hue_delta_of config = spec_hue_delta (color_cold_hue config) (color_hot_hue config).
Proof.
  intros [Hc Hh]. unfold hue_delta_of, spec_hue_delta. cbv zeta.
  rewrite (to_int16_small (color_hot_hue config - color_cold_hue config)) by lia.
  destruct (Z.ltb_spec 180 (color_hot_hue config - color_cold_hue config)).
  - apply to_int16_small. lia.
  - destruct (Z.ltb_spec (color_hot_hue config - color_cold_hue config) (-180));
      [apply to_int16_small; lia | reflexivity].
Qed.

(** X14: for configured hues the delta is hot minus cold, less 360 above
    180 and plus 360 below -180; it is congruent to hot minus cold modulo
    360 and of magnitude at most 180; cold 350 and hot 10 give +20, cold 10
    and hot 350 give -20. *)
Theorem hue_delta_shorter_arc (config : fx_heatmap_config) :
  valid_hues config ->
  let delta := color_hot_hue config - color_cold_hue config in
  hue_delta_of config =
    (if 180 <? delta then delta - 360 else if delta <? -180 then delta + 360 else delta) /\
  -180 <= hue_delta_of config <= 180 /\
  (hue_delta_of config - delta) mod 360 = 0 /\
  (color_cold_hue config = 350 -> color_hot_hue config = 10 -> hue_delta_of config = 20) /\
  (color_cold_hue config = 10 -> color_hot_hue config = 350 -> hue_delta_of config = -20).
Proof.
  intros Hv delta. pose proof Hv as [Hc Hh].
  rewrite (hue_delta_of_spec config Hv). unfold spec_hue_delta. fold delta.
  split; [reflexivity |].
  destruct (Z.ltb_spec 180 delta) as [H1 | H1];
    [| destruct (Z.ltb_spec delta (-180)) as [H2 | H2]].
  - split; [unfold delta; lia |]. split.
    + replace (delta - 360 - delta) with (-1 * 360) by lia. apply Z.mod_mul. lia.
    + unfold delta in *. split; intros E1 E2; rewrite E1, E2 in *; lia.
  - split; [unfold delta; lia |]. split.
    + replace (delta + 360 - delta) with (1 * 360) by lia. apply Z.mod_mul. lia.
    + unfold delta in *. split; intros E1 E2; rewrite E1, E2 in *; lia.
  - split; [lia |]. split.
    + now rewrite Z.sub_diag.
    + unfold delta in *. split; intros E1 E2; rewrite E1, E2 in *; lia.
Qed.

Lemma hue_sub_loop_spec (fuel : nat) (hue : Z) :
  0 <= hue < 65536 -> hue < 360 * Z.of_nat fuel ->
  hue_sub_loop fuel hue = hue mod 360.
Proof.
  revert hue. induction fuel as [| fuel IH]; intros hue Hu Hf; [lia |].
  cbn [hue_sub_loop]. destruct (Z.leb_spec 360 hue) as [Hge | Hlt].
  - unfold CInt.to_uint16. rewrite (Z.mod_small (hue - 360)) by lia.
    rewrite IH by lia.
    replace hue with (hue - 360 + 1 * 360) at 2 by lia.
    now rewrite Z.mod_add by lia.
  - now rewrite Z.mod_small by lia.
Qed.

Lemma hue_add_loop_id (fuel : nat) (hue : Z) : 0 <= hue -> hue_add_loop fuel hue = hue.
Proof.
  intros H. destruct fuel; [reflexivity |]. cbn [hue_add_loop].
  destruct (Z.ltb_spec hue 0); [lia | reflexivity].
Qed.

(** The two loops on a [uint16_t]: the first reduces modulo 360, the second
    never runs. *)
Lemma normalize_hue_spec (hue : Z) :
  0 <= hue < 65536 -> normalize_hue hue = hue mod 360.
Proof.
  intros H. unfold normalize_hue.
  rewrite hue_sub_loop_spec by (unfold hue_loop_fuel; lia).
  apply hue_add_loop_id. pose proof (Z.mod_pos_bound hue 360 ltac:(lia)). lia.
Qed.

(** The cast of line 103 is defined for every count below the maximum. *)
Lemma hue_offset_defined (config : fx_heatmap_config) (c max_count : Z) :
  0 <= c <= max_count -> 1 <= max_count < 2 ^ 32 ->
  exists off,
    hue_offset (hue_delta_of config) (usage_of c max_count) = Ok off /\
    (if hue_delta_of config <? 0 then hue_delta_of config <= off <= 0
     else 0 <= off <= hue_delta_of config).
Proof.
  intros Hc Hm. pose proof (hue_delta_of_range config) as Hd.
  destruct (Float32Facts.product_truncates (hue_delta_of config) (usage_of c max_count))
    as (t & Et & Ht).
  - change (2 ^ 24) with 16777216. lia.
  - apply Float32Facts.usage_below; assumption.
  - exists t. split; [| exact Ht].
    unfold hue_offset, Float32.to_int16. rewrite Et.
    assert (Hr : -32768 <= t <= 32767) by (destruct (hue_delta_of config <? 0); lia).
    destruct (Z.leb_spec (-32768) t); [| lia].
    destruct (Z.leb_spec t 32767); [reflexivity | lia].
Qed.

(** ** The maximum press count *)

Lemma list_max_cons (c : Z) (counts : list Z) :
  list_max (c :: counts) = Z.max c (list_max counts).
Proof. reflexivity. Qed.

Lemma list_max_nonneg (counts : list Z) : 0 <= list_max counts.
Proof.
  induction counts as [| c counts IH]; [unfold list_max; cbn; lia |].
  rewrite list_max_cons. lia.
Qed.

Lemma list_max_ge (counts : list Z) (i : nat) (c : Z) :
  counts !! i = Some c -> c <= list_max counts.
Proof.
  revert i. induction counts as [| x counts IH]; intros [| i] H; try discriminate.
  - cbn in H. injection H as ->. rewrite list_max_cons. lia.
  - cbn in H. specialize (IH i H). rewrite list_max_cons. lia.
Qed.

Lemma list_max_uint32 (counts : list Z) :
  Forall CInt.is_uint32 counts -> list_max counts < 2 ^ 32.
Proof.
  induction 1 as [| c counts Hc _ IH]; [unfold list_max; cbn; lia |].
  rewrite list_max_cons. unfold CInt.is_uint32 in Hc.
  change (2 ^ 32) with 4294967296 in *. lia.
Qed.

Lemma max_count_loop_spec (counts : list Z) (remaining i : nat) (acc : Z) :
  (i + remaining = length counts)%nat -> 0 <= acc ->
  max_count_loop counts remaining i acc = Ok (Z.max acc (list_max (drop i counts))).
Proof.
  revert i acc. induction remaining as [| remaining IH]; intros i acc Hlen Hacc.
  - cbn [max_count_loop]. rewrite drop_ge by lia.
    change (list_max []) with 0. f_equal. lia.
  - cbn [max_count_loop].
    destruct (lookup_lt_is_Some_2 counts i ltac:(lia)) as [c Hc].
    rewrite (load_lookup _ _ _ _ Hc). cbn [obind].
    rewrite IH by (destruct (Z.ltb_spec acc c); lia).
    rewrite (drop_S _ _ _ Hc), list_max_cons. f_equal.
    destruct (Z.ltb_spec acc c); lia.
Qed.

Lemma find_max_count_spec (config : fx_heatmap_config) (data : fx_heatmap_data) :
  length (key_counts data) = pixel_map_size config ->
  find_max_count config data = Ok (spec_max_count (key_counts data)).
Proof.
  intros Hlen. unfold find_max_count.
  rewrite max_count_loop_spec by lia. reflexivity.
Qed.

Lemma spec_max_count_bounds (counts : list Z) :
  Forall CInt.is_uint32 counts ->
  1 <= spec_max_count counts < 2 ^ 32 /\
  forall i c, counts !! i = Some c -> 0 <= c <= spec_max_count counts.
Proof.
  intros Hu. unfold spec_max_count.
  pose proof (list_max_uint32 counts Hu). pose proof (list_max_nonneg counts).
  split; [change (2 ^ 32) with 4294967296 in *; lia |].
  intros i c Hc. pose proof (list_max_ge counts i c Hc).
  assert (CInt.is_uint32 c) as [Hc0 _] by (eapply Forall_lookup_1; eassumption).
  lia.
Qed.

(** C6: on a device of the declared shape the first loop returns
    max(1, max(counts)); it is at least 1 and at least every counter, so the
    divisor is never zero, the exact ratio of a slot lies in [0, 1], and so
    does the value of the [float] quotient the code computes. *)
Theorem max_count_floor (config : fx_heatmap_config) (data : fx_heatmap_data) :
  wf_device config data ->
  exists max_count,
    find_max_count config data = Ok max_count /\
    max_count = Z.max 1 (list_max (key_counts data)) /\
    1 <= max_count /\
    forall i c, key_counts data !! i = Some c ->
      0 <= c <= max_count /\
      (0 <= spec_usage c max_count)%Q /\ (spec_usage c max_count <= 1)%Q /\
      exists q, Float32.to_Q (usage_of c max_count) = Some q /\
                (0 <= q)%Q /\ (q <= 1)%Q.
Proof.
  intros (_ & Hlen & Hu).
  destruct (spec_max_count_bounds (key_counts data) Hu) as [HM Hall].
  exists (spec_max_count (key_counts data)).
  split; [now apply find_max_count_spec |]. split; [reflexivity |]. split; [lia |].
  intros i c Hc. specialize (Hall i c Hc).
  set (M := spec_max_count (key_counts data)) in *.
  split; [exact Hall |].
  assert (HMq : (0 < inject_Z M)%Q)
    by (change 0%Q with (inject_Z 0); rewrite <- Zlt_Qlt; lia).
  split; [| split].
  - unfold spec_usage. apply Qle_shift_div_l; [exact HMq |].
    rewrite Qmult_0_l. change 0%Q with (inject_Z 0). rewrite <- Zle_Qle. lia.
  - unfold spec_usage. apply Qle_shift_div_r; [exact HMq |].
    rewrite Qmult_1_l. rewrite <- Zle_Qle. lia.
  - apply (Float32Facts.below_to_Q 1); [lia |].
    apply Float32Facts.usage_below; lia.
Qed.

(** ** The hue of a slot *)

Lemma pixel_hue_formula (config : fx_heatmap_config) (c max_count off : Z) :
  hue_offset (hue_delta_of config) (usage_of c max_count) = Ok off ->
  pixel_hue config c max_count =
    Ok (CInt.to_uint16 (color_cold_hue config + off) mod 360).
Proof.
  intros E. unfold pixel_hue. cbv zeta. rewrite E. cbn [obind].
  rewrite normalize_hue_spec; [reflexivity |].
  unfold CInt.to_uint16. apply Z.mod_pos_bound. lia.
Qed.

Lemma pixel_hue_defined (config : fx_heatmap_config) (c max_count : Z) :
  0 <= c <= max_count -> 1 <= max_count < 2 ^ 32 ->
  exists hue, pixel_hue config c max_count = Ok hue /\ 0 <= hue < 360.
Proof.
  intros Hc Hm.
  destruct (hue_offset_defined config c max_count Hc Hm) as (off & E & _).
  eexists. split; [apply pixel_hue_formula; exact E |].
  apply Z.mod_pos_bound. lia.
Qed.

(** ** Rendering *)

Section Render.

Variable rgb : Type.
Variable hsl_to_rgb : zmk_color_hsl -> rgb.
Variable blend : rgb -> rgb -> Z -> rgb.

Local Abbreviation loop := (render_loop rgb hsl_to_rgb blend).
Local Abbreviation render_frame := (fx_heatmap_render_frame rgb hsl_to_rgb blend).

Lemma same_place_refl (pixels : list (rgb_fx_pixel rgb)) : Forall2 same_place pixels pixels.
Proof. apply Forall_Forall2_diag, Forall_true. intros px. split; reflexivity. Qed.

(** With every map entry inside the buffer the second loop runs to its end:
    the buffer keeps its length and the place of every pixel, and a position
    the remaining slots do not name keeps its pixel. *)
Lemma render_loop_ok (config : fx_heatmap_config) (counts : list Z) (max_count : Z)
    (remaining i : nat) (pixels : list (rgb_fx_pixel rgb)) :
  (i + remaining = length counts)%nat ->
  length (pixel_map config) = length counts ->
  (forall j c, counts !! j = Some c -> 0 <= c <= max_count) ->
  1 <= max_count < 2 ^ 32 ->
  map_in_range config (length pixels) ->
  exists pixels',
    loop config counts max_count remaining i pixels = Ok pixels' /\
    length pixels' = length pixels /\
    Forall2 same_place pixels pixels' /\
    forall j, j ∉ drop i (pixel_map config) -> pixels' !! j = pixels !! j.
Proof.
  revert i pixels. induction remaining as [| remaining IH];
    intros i pixels Hlen Hmap Hall HM Hin.
  - exists pixels. repeat split; auto using same_place_refl.
  - cbn [render_loop].
    destruct (lookup_lt_is_Some_2 counts i ltac:(lia)) as [c Hc].
    rewrite (load_lookup _ _ _ _ Hc). cbn [obind].
    destruct (pixel_hue_defined config c max_count (Hall i c Hc) HM) as (hue & Eh & _).
    rewrite Eh. cbn [obind].
    destruct (lookup_lt_is_Some_2 (pixel_map config) i ltac:(lia)) as [p Hp].
    rewrite (load_lookup _ _ _ _ Hp). cbn [obind].
    assert (Hpl : (p < length pixels)%nat)
      by (exact (Forall_lookup_1 _ _ _ _ Hin Hp)).
    destruct (lookup_lt_is_Some_2 pixels p Hpl) as [px Hpx].
    rewrite (load_lookup _ _ _ _ Hpx). cbn [obind].
    rewrite store_in_range by exact Hpl. cbn [obind].
    set (px' := mk_pixel (position_x px) (position_y px)
                  (blend (value px) (pixel_color rgb hsl_to_rgb config hue)
                     (blending_mode config))).
    destruct (IH (S i) (<[p := px']> pixels)) as (out & E & Hl & Hs & Hk);
      try assumption; [lia | unfold map_in_range; now rewrite length_insert |].
    exists out. split; [exact E |]. rewrite length_insert in Hl.
    split; [exact Hl |]. split.
    + apply (Forall2_trans same_place same_place same_place _ (<[p := px']> pixels));
        [intros x y z [? ?] [? ?]; split; congruence | | exact Hs].
      rewrite <- (list_insert_id pixels p px Hpx) at 1.
      apply Forall2_insert; [apply same_place_refl | split; reflexivity].
    + intros j Hj. rewrite (drop_S _ _ _ Hp) in Hj.
      apply not_elem_of_cons in Hj as [Hne Hj].
      rewrite (Hk j Hj). now apply list_lookup_insert_ne.
Qed.

(** The loop reads the buffer only to blend: two buffers that agree on the
    places, and on the pixels that the remaining slots do not name, give
    the same result when the blending mode ignores the old colour. *)
Lemma render_loop_overwrite (config : fx_heatmap_config) (counts : list Z)
    (max_count : Z) (remaining i : nat) (pixels1 pixels2 : list (rgb_fx_pixel rgb)) :
  (forall old old' new, blend old new (blending_mode config) =
                        blend old' new (blending_mode config)) ->
  (length (pixel_map config) <= i + remaining)%nat ->
  Forall2 same_place pixels1 pixels2 ->
  (forall j, j ∉ drop i (pixel_map config) -> pixels1 !! j = pixels2 !! j) ->
  loop config counts max_count remaining i pixels1 =
  loop config counts max_count remaining i pixels2.
Proof.
  intros Hov. revert i pixels1 pixels2.
  induction remaining as [| remaining IH]; intros i pixels1 pixels2 Hlen Hs Hag.
  - cbn [render_loop]. f_equal. apply list_eq. intros j. apply Hag.
    rewrite drop_ge by lia. apply not_elem_of_nil.
  - cbn [render_loop].
    destruct (load OobKeyCounts counts i) as [c | u]; [cbn [obind] | reflexivity].
    destruct (pixel_hue config c max_count) as [hue | u]; [cbn [obind] | reflexivity].
    unfold load at 1 3.
    destruct (pixel_map config !! i) as [p |] eqn:Hp; [cbn [obind] | reflexivity].
    pose proof (Forall2_length _ _ _ Hs) as Hl.
    unfold load, store. rewrite <- Hl.
    destruct (pixels1 !! p) as [px1 |] eqn:E1.
    + destruct (Forall2_lookup_l _ _ _ _ _ Hs E1) as (px2 & E2 & Hpl1 & Hpl2).
      rewrite E2. cbn [obind].
      destruct (decide (p < length pixels1)%nat) as [Hlt | Hge]; [cbn [obind] | reflexivity].
      rewrite Hpl1, Hpl2, (Hov (value px1) (value px2)).
      apply IH; [lia | apply Forall2_insert; [exact Hs | split; reflexivity] |].
      intros j Hj. destruct (decide (j = p)) as [-> | Hne].
      * rewrite !list_lookup_insert_eq by lia. reflexivity.
      * rewrite !list_lookup_insert_ne by congruence. apply Hag.
        rewrite (drop_S _ _ _ Hp). apply not_elem_of_cons. split; assumption.
    + assert (E2 : pixels2 !! p = None).
      { apply lookup_ge_None. rewrite <- Hl. now apply lookup_ge_None. }
      rewrite E2. reflexivity.
Qed.

Lemma render_frame_ok (config : fx_heatmap_config)
    (data : fx_heatmap_data) (pixels : list (rgb_fx_pixel rgb)) :
  wf_device config data ->
  map_in_range config (length pixels) ->
  exists pixels',
    render_frame config data pixels = Ok pixels' /\
    length pixels' = length pixels /\
    Forall2 same_place pixels pixels' /\
    forall j, j ∉ pixel_map config -> pixels' !! j = pixels !! j.
Proof.
  intros (Hmap & Hlen & Hu) Hin.
  destruct (spec_max_count_bounds (key_counts data) Hu) as [HM Hall].
  unfold fx_heatmap_render_frame.
  rewrite (find_max_count_spec config data Hlen). cbn [obind].
  apply (render_loop_ok config (key_counts data) _ (pixel_map_size config) 0 pixels);
    try assumption; lia.
Qed.

(** C8 (amended): with unchanged counters, a blending mode that ignores the
    colour already in the buffer, and every map entry inside the buffer, a
    second call leaves the buffer as the first call made it. *)
Theorem render_frame_idempotent_overwrite (config : fx_heatmap_config)
    (data : fx_heatmap_data) (pixels : list (rgb_fx_pixel rgb)) :
  wf_device config data ->
  map_in_range config (length pixels) ->
  (forall old old' new, blend old new (blending_mode config) =
                        blend old' new (blending_mode config)) ->
  exists pixels1,
    render_frame config data pixels = Ok pixels1 /\
    render_frame config data pixels1 = Ok pixels1.
Proof.
  intros Hwf Hin Hov.
  destruct (render_frame_ok config data pixels Hwf Hin)
    as (pixels1 & E & _ & Hs & Hk).
  exists pixels1. split; [exact E |].
  rewrite <- E. unfold fx_heatmap_render_frame.
  destruct (find_max_count config data) as [max_count | u]; [cbn [obind] | reflexivity].
  destruct Hwf as (Hmap & _).
  apply render_loop_overwrite.
  - exact Hov.
  - lia.
  - apply Forall2_flip. eapply Forall2_impl; [exact Hs |].
    intros x y [? ?]. split; symmetry; assumption.
  - intros j Hj. apply Hk. exact Hj.
Qed.

End Render.

(** ** Lifecycle *)

(** C7: start sets the active flag and requests exactly one frame; stop
    clears the flag and requests nothing; neither touches a counter. *)
Theorem start_stop_effect (w : host) :
  (is_active (dev_data (fx_heatmap_start w)) = true /\
   frame_requests (fx_heatmap_start w) = 1 :: frame_requests w /\
   key_counts (dev_data (fx_heatmap_start w)) = key_counts (dev_data w)) /\
  (is_active (dev_data (fx_heatmap_stop w)) = false /\
   frame_requests (fx_heatmap_stop w) = frame_requests w /\
   key_counts (dev_data (fx_heatmap_stop w)) = key_counts (dev_data w)).
Proof. repeat split. Qed.

(** ** The code on the sample devices *)

(** The conversion of a 25-bit integer rounds to even, and one third is the
    binary32 number 0x3EAAAAAB. *)
Example of_Z_ties_to_even :
  Float32.of_Z 16777217 = S754_finite false 8388608 1 /\
  Float32.of_Z 16777219 = S754_finite false 8388610 1.
Proof. split; reflexivity. Qed.

Example usage_one_third : usage_of 1 3 = S754_finite false 11184811 (-25).
Proof. reflexivity. Qed.

Example usage_full : usage_of 4294967295 4294967295 = S754_finite false 8388608 (-23).
Proof. reflexivity. Qed.

(** The scenario of the specification: counts 0 and 10 between hues 0 and
    120 give hue 0 and hue 120; a count of 5 gives the midpoint. *)
Example sample_frame :
  fx_heatmap_render_frame Z sample_hsl_to_rgb sample_blend
    sample_config sample_data sample_pixels =
  Ok [mk_pixel 0 0 0; mk_pixel 1 0 120; mk_pixel 2 0 60].
Proof. vm_compute. reflexivity. Qed.

(** C1, counterexample: with a delta of 1 and a usage of 3/4 the code adds
    0 where rounding adds 1; with cold 10, delta -20 and a usage of 1 the
    sum is -10 and the code yields hue 6 where the sum modulo 360 is 350. *)
Lemma pixel_hue_counterexample :
  (hue_delta_of narrow_config = 1 /\
   pixel_hue narrow_config 3 4 = Ok 0 /\
   spec_hue 0 1 3 4 = 1) /\
  (hue_delta_of downward_config = -20 /\
   pixel_hue downward_config 1 1 = Ok 6 /\
   spec_hue 10 350 1 1 = 350) /\
  fx_heatmap_render_frame Z sample_hsl_to_rgb sample_blend
    narrow_config narrow_data [mk_pixel 0 0 0; mk_pixel 1 0 0] =
  Ok [mk_pixel 0 0 0; mk_pixel 1 0 1] /\
  fx_heatmap_render_frame Z sample_hsl_to_rgb sample_blend
    downward_config downward_data [mk_pixel 0 0 0; mk_pixel 1 0 0] =
  Ok [mk_pixel 0 0 6; mk_pixel 1 0 10].
Proof. vm_compute. repeat split. Qed.

Lemma hue_delta_shorter_arc_witness :
  valid_hues upward_config /\ hue_delta_of upward_config = 20 /\
  valid_hues downward_config /\ hue_delta_of downward_config = -20.
Proof.
  assert (Hu : valid_hues upward_config) by (unfold valid_hues; cbn; lia).
  assert (Hd : valid_hues downward_config) by (unfold valid_hues; cbn; lia).
  split; [exact Hu |]. split.
  - destruct (hue_delta_shorter_arc upward_config Hu) as (_ & _ & _ & H & _).
    apply H; reflexivity.
  - split; [exact Hd |].
    destruct (hue_delta_shorter_arc downward_config Hd) as (_ & _ & _ & _ & H).
    apply H; reflexivity.
Defined.

Lemma on_key_press_invalid_index_witness :
  fx_heatmap_on_key_press sample_resolver sample_config sample_host (press 3) =
  Ok (- EINVAL, sample_host) /\ - EINVAL <> 0.
Proof.
  apply (on_key_press_invalid_index sample_resolver sample_config sample_host
           (mk_position_event 3 true)).
  - reflexivity.
  - reflexivity.
  - vm_compute. lia.
Defined.

(** C4, counterexample: after stop, an event that is not a key position
    event is answered with 0, not with -ENOTSUP. *)
Lemma on_key_press_other_event_counterexample :
  is_active (dev_data (fx_heatmap_stop sample_host)) = false /\
  fx_heatmap_on_key_press sample_resolver sample_config
    (fx_heatmap_stop sample_host) (OtherEvent 0) =
  Ok (0, fx_heatmap_stop sample_host) /\
  0 <> - ENOTSUP.
Proof. repeat split. discriminate. Qed.

Lemma on_key_press_inactive_succeeds_witness :
  fx_heatmap_on_key_press sample_resolver sample_config
    (fx_heatmap_stop sample_host) (OtherEvent 0) =
  Ok (0, fx_heatmap_stop sample_host) /\
  is_active (dev_data sample_host) = true.
Proof.
  split.
  - apply (on_key_press_inactive_succeeds sample_resolver sample_config
             (fx_heatmap_stop sample_host) (OtherEvent 0)). reflexivity.
  - apply (proj2 (on_key_press_inactive_succeeds sample_resolver sample_config
                    sample_host (OtherEvent 0)) sample_host). reflexivity.
Defined.

(** C5, counterexample: a press on a counter that holds 4294967295 leaves 0
    in it, not 4294967296. *)
Lemma on_key_press_counts_counterexample :
  fx_heatmap_on_key_press sample_resolver saturated_config saturated_host (press 0) =
  Ok (0, mk_host (mk_data [0] true) [1]) /\
  0 <> 4294967295 + 1.
Proof. split; [vm_compute; reflexivity | discriminate]. Qed.

Lemma on_key_press_counts_witness :
  wf_device sample_config (dev_data sample_host) /\
  exists w',
    fx_heatmap_on_key_press sample_resolver sample_config sample_host (press 1) =
    Ok (0, w') /\
    key_counts (dev_data w') !! 1%nat = Some 11 /\
    key_counts (dev_data w') !! 0%nat = Some 0 /\
    frame_requests w' = [1].
Proof.
  assert (Hwf : wf_device sample_config (dev_data sample_host)).
  { unfold wf_device, CInt.is_uint32. cbn. repeat constructor; lia. }
  split; [exact Hwf |].
  destruct (on_key_press_counts sample_resolver sample_config sample_host (press 1) Hwf)
    as (Hpress & _).
  destruct (Hpress (mk_position_event 1 true) eq_refl eq_refl eq_refl)
    as (c & w' & Hc & E & Hn & Hother & _ & _ & Hreq).
  - vm_compute. lia.
  - exists w'. split; [exact E |].
    cbn in Hc. injection Hc as <-.
    split; [exact Hn |]. split; [| exact Hreq].
    rewrite (Hother 0%nat); [reflexivity | vm_compute; lia].
Defined.

Lemma max_count_floor_witness :
  wf_device sample_config sample_data /\
  exists max_count,
    find_max_count sample_config sample_data = Ok max_count /\
    max_count = 10 /\
    (spec_usage 5 max_count <= 1)%Q /\
    exists q, Float32.to_Q (usage_of 5 max_count) = Some q /\ (q <= 1)%Q.
Proof.
  assert (Hwf : wf_device sample_config sample_data).
  { unfold wf_device, CInt.is_uint32. cbn. repeat constructor; lia. }
  split; [exact Hwf |].
  destruct (max_count_floor sample_config sample_data Hwf)
    as (max_count & E & Emax & _ & Hall).
  destruct (Hall 2%nat 5 eq_refl) as (_ & _ & Hq & q & Eq & _ & Hq1).
  exists max_count. split; [exact E |]. split; [exact Emax |].
  split; [exact Hq |]. exists q. split; assumption.
Defined.

(** C8, counterexample: with the additive mode the second call adds the
    colours once more. *)
Lemma render_frame_twice_counterexample :
  fx_heatmap_render_frame Z sample_hsl_to_rgb sample_blend
    additive_config sample_data sample_pixels =
  Ok [mk_pixel 0 0 1; mk_pixel 1 0 122; mk_pixel 2 0 63] /\
  fx_heatmap_render_frame Z sample_hsl_to_rgb sample_blend
    additive_config sample_data [mk_pixel 0 0 1; mk_pixel 1 0 122; mk_pixel 2 0 63] =
  Ok [mk_pixel 0 0 1; mk_pixel 1 0 242; mk_pixel 2 0 123] /\
  [mk_pixel 0 0 1; mk_pixel 1 0 242; mk_pixel 2 0 123] <>
  [mk_pixel 0 0 1; mk_pixel 1 0 122; mk_pixel 2 0 63].
Proof. split; [| split]; [vm_compute; reflexivity | vm_compute; reflexivity | discriminate]. Qed.

Lemma render_frame_idempotent_overwrite_witness :
  wf_device sample_config sample_data /\
  map_in_range sample_config (length sample_pixels) /\
  exists pixels1,
    fx_heatmap_render_frame Z sample_hsl_to_rgb sample_blend
      sample_config sample_data sample_pixels = Ok pixels1 /\
    fx_heatmap_render_frame Z sample_hsl_to_rgb sample_blend
      sample_config sample_data pixels1 = Ok pixels1.
Proof.
  assert (Hwf : wf_device sample_config sample_data).
  { unfold wf_device, CInt.is_uint32. cbn. repeat constructor; lia. }
  assert (Hin : map_in_range sample_config (length sample_pixels)).
  { unfold map_in_range. cbn. repeat constructor; lia. }
  split; [exact Hwf |]. split; [exact Hin |].
  apply (render_frame_idempotent_overwrite Z sample_hsl_to_rgb sample_blend
           sample_config sample_data sample_pixels Hwf Hin).
  intros old old' new. reflexivity.
Defined.

(** C9, counterexample: a map entry of 7 with a buffer of three pixels is
    not skipped; the call runs into the access outside the buffer. *)
Lemma render_frame_stray_counterexample :
  wf_device stray_config sample_data /\
  fx_heatmap_render_frame Z sample_hsl_to_rgb sample_blend
    stray_config sample_data sample_pixels =
  Undefined (OobPixels 7) /\
  ~ exists pixels',
      fx_heatmap_render_frame Z sample_hsl_to_rgb sample_blend
        stray_config sample_data sample_pixels = Ok pixels'.
Proof.
  split; [| split].
  - unfold wf_device, CInt.is_uint32. cbn. repeat constructor; lia.
  - vm_compute. reflexivity.
  - intros [pixels' H]. vm_compute in H. discriminate.
Qed.

(** ** The handler over a stream of events *)

Lemma init_loop_spec (counts : list Z) (remaining i : nat) :
  (i + remaining = length counts)%nat ->
  init_loop counts remaining i = Ok (take i counts ++ replicate remaining 0).
Proof.
  revert counts i. induction remaining as [| remaining IH]; intros counts i Hlen.
  - cbn. rewrite app_nil_r, take_ge by lia. reflexivity.
  - cbn [init_loop]. rewrite store_in_range by lia. cbn [obind].
    rewrite IH by (rewrite length_insert; lia).
    f_equal.
    rewrite (take_S_r _ _ 0) by (apply list_lookup_insert_eq; lia).
    rewrite take_insert_ge by lia.
    rewrite <- app_assoc. reflexivity.
Qed.

(** The loop of init from its first slot. *)
Lemma init_loop_start (counts : list Z) (n : nat) :
  n = length counts -> init_loop counts n 0 = Ok (replicate n 0).
Proof. intros ->. rewrite init_loop_spec by lia. now rewrite take_0. Qed.


Section Dispatch.

Variable resolver : Z -> nat.

Local Abbreviation on_key_press := (fx_heatmap_on_key_press resolver).

Lemma to_uint32_range (z : Z) : CInt.is_uint32 (CInt.to_uint32 z).
Proof. unfold CInt.is_uint32, CInt.to_uint32. apply Z.mod_pos_bound. lia. Qed.

Lemma to_uint32_succ_neq (c : Z) : CInt.is_uint32 c -> CInt.to_uint32 (c + 1) <> c.
Proof.
  unfold CInt.is_uint32, CInt.to_uint32. intros Hc.
  destruct (Z.eq_dec c 4294967295) as [-> | Hne]; [discriminate |].
  rewrite Z.mod_small by lia. lia.
Qed.

Lemma on_key_press_inactive config w event :
  is_active (dev_data w) = false -> on_key_press config w event = Ok (0, w).
Proof. intros Hact. unfold fx_heatmap_on_key_press. cbn. now rewrite Hact. Qed.

(** One call while active: an in-range press takes the writing path, every
    other event leaves the state and returns one of the three statuses. *)
Lemma on_key_press_step config w event :
  wf_device config (dev_data w) ->
  is_active (dev_data w) = true ->
  if is_press_below resolver (pixel_map_size config) event then
    exists ev c,
      event = PositionStateChanged ev /\ state ev = true /\
      (resolver (position ev) < pixel_map_size config)%nat /\
      key_counts (dev_data w) !! resolver (position ev) = Some c /\
      on_key_press config w event =
        Ok (0, mk_host
                 (mk_data (<[resolver (position ev) := CInt.to_uint32 (c + 1)]>
                             (key_counts (dev_data w))) true)
                 (1 :: frame_requests w))
  else
    exists r, on_key_press config w event = Ok (r, w) /\
              (r = 0 \/ r = - ENOTSUP \/ r = - EINVAL).
Proof.
  intros (_ & Hlen & _) Hact. unfold is_press_below.
  destruct event as [ev | kind]; cbn [as_zmk_position_state_changed].
  - destruct (state ev) eqn:Hst; cbn [andb].
    + destruct (Nat.ltb_spec (resolver (position ev)) (pixel_map_size config)) as [Hlt | Hge].
      * destruct (lookup_lt_is_Some_2 (key_counts (dev_data w)) (resolver (position ev)))
          as [c Hc]; [lia |].
        exists ev, c. repeat split; try assumption.
        now apply on_key_press_accepted.
      * exists (- EINVAL). split; [now apply on_key_press_rejected | auto].
    + exists 0. split; [| auto].
      unfold fx_heatmap_on_key_press. cbn. now rewrite Hact, Hst.
  - exists (- ENOTSUP). split; [| auto].
    rewrite on_key_press_not_position. now rewrite Hact.
Qed.

Lemma wf_device_insert config counts b k v :
  wf_device config (mk_data counts b) -> CInt.is_uint32 v ->
  wf_device config (mk_data (<[k := v]> counts) true).
Proof.
  intros (Hmap & Hlen & Hu) Hv. cbn in *. repeat split; cbn.
  - exact Hmap.
  - now rewrite length_insert.
  - apply Forall_insert; assumption.
Qed.

(** X2: on a device of the declared shape one call of the handler never
    faults; its status is 0, -ENOTSUP or -EINVAL; an error status leaves the
    whole state as it was; the shape and the active flag are kept; and a
    frame is requested exactly when a counter changed. *)
Theorem on_key_press_invariant config w event :
  wf_device config (dev_data w) ->
  exists r w',
    on_key_press config w event = Ok (r, w') /\
    (r = 0 \/ r = - ENOTSUP \/ r = - EINVAL) /\
    (r <> 0 -> w' = w) /\
    wf_device config (dev_data w') /\
    is_active (dev_data w') = is_active (dev_data w) /\
    ((key_counts (dev_data w') = key_counts (dev_data w) /\
      frame_requests w' = frame_requests w) \/
     (key_counts (dev_data w') <> key_counts (dev_data w) /\
      frame_requests w' = 1 :: frame_requests w)).
Proof.
  intros Hwf. destruct (is_active (dev_data w)) eqn:Hact.
  2:{ exists 0, w. split; [now apply on_key_press_inactive |].
      split; [auto |]. split; [reflexivity |]. split; [exact Hwf |].
      split; [now rewrite Hact | left; split; reflexivity]. }
  pose proof (on_key_press_step config w event Hwf Hact) as Hstep.
  destruct (is_press_below resolver (pixel_map_size config) event).
  - destruct Hstep as (ev & c & -> & Hst & Hlt & Hc & E).
    eexists _, _. split; [exact E |]. cbn.
    split; [auto |]. split; [congruence |].
    assert (Hcu : CInt.is_uint32 c)
      by (destruct Hwf as (_ & _ & Hu); exact (Forall_lookup_1 _ _ _ _ Hu Hc)).
    split; [| split; [reflexivity |]].
    + destruct w as [[counts b] reqs]. cbn in *.
      eapply wf_device_insert; [exact Hwf | apply to_uint32_range].
    + right. split; [| reflexivity]. intros Heq.
      assert (Hl : <[resolver (position ev) := CInt.to_uint32 (c + 1)]>
                     (key_counts (dev_data w)) !! resolver (position ev)
                   = Some (CInt.to_uint32 (c + 1))).
      { apply list_lookup_insert_eq. eapply lookup_lt_Some; eassumption. }
      rewrite Heq, Hc in Hl. injection Hl as Hl.
      symmetry in Hl. now apply to_uint32_succ_neq in Hl.
  - destruct Hstep as (r & E & Hr).
    exists r, w. split; [exact E |]. split; [exact Hr |].
    split; [reflexivity |]. split; [exact Hwf |].
    split; [now rewrite Hact | left; split; reflexivity].
Qed.

(** X4: while the effect is inactive every stream of events is answered
    with 0 throughout and leaves the state as it was. *)
Theorem dispatch_inactive config w events :
  is_active (dev_data w) = false ->
  dispatch resolver config w events = Ok (replicate (length events) 0, w).
Proof.
  intros Hact. induction events as [| event rest IH]; [reflexivity |].
  cbn [dispatch]. rewrite (on_key_press_inactive config w event Hact). cbn [obind snd fst].
  rewrite IH. reflexivity.
Qed.

Lemma replicate_cons_middle {A : Type} (n : nat) (x : A) (xs : list A) :
  replicate n x ++ x :: xs = replicate (S n) x ++ xs.
Proof. induction n as [| n IH]; [reflexivity |]. cbn. f_equal. exact IH. Qed.

Lemma dispatch_run config w events :
  wf_device config (dev_data w) ->
  is_active (dev_data w) = true ->
  exists rs w',
    dispatch resolver config w events = Ok (rs, w') /\
    length rs = length events /\
    wf_device config (dev_data w') /\
    is_active (dev_data w') = true /\
    (forall k c, key_counts (dev_data w) !! k = Some c ->
       key_counts (dev_data w') !! k =
         Some ((c + Z.of_nat (count_events (is_press_on resolver k) events)) mod 2 ^ 32)) /\
    frame_requests w' =
      replicate (count_events (is_press_below resolver (pixel_map_size config)) events) 1
        ++ frame_requests w.
Proof.
  revert w. induction events as [| event rest IH]; intros w Hwf Hact.
  - exists [], w. split; [reflexivity |]. split; [reflexivity |].
    split; [exact Hwf |]. split; [exact Hact |]. split; [| reflexivity].
    intros k c Hc. cbn [count_events]. change (Z.of_nat 0) with 0. rewrite Z.add_0_r.
    destruct Hwf as (_ & _ & Hu).
    assert (Hcu : CInt.is_uint32 c) by exact (Forall_lookup_1 _ _ _ _ Hu Hc).
    unfold CInt.is_uint32 in Hcu. now rewrite Z.mod_small by lia.
  - cbn [dispatch count_events].
    pose proof (on_key_press_step config w event Hwf Hact) as Hstep.
    destruct (is_press_below resolver (pixel_map_size config) event) eqn:Hb.
    + destruct Hstep as (ev & c0 & -> & Hst & Hlt & Hc0 & E).
      rewrite E. cbn [obind snd fst].
      set (w1 := mk_host _ _).
      assert (Hc0u : CInt.is_uint32 c0)
        by (destruct Hwf as (_ & _ & Hu); exact (Forall_lookup_1 _ _ _ _ Hu Hc0)).
      assert (Hwf1 : wf_device config (dev_data w1)).
      { destruct w as [[counts b] reqs]. cbn in *.
        eapply wf_device_insert; [exact Hwf | apply to_uint32_range]. }
      destruct (IH w1 Hwf1 eq_refl) as (rs & w' & Ed & Hl & Hwf' & Hact' & Hk & Hreq).
      rewrite Ed. cbn [obind snd fst].
      exists (0 :: rs), w'. split; [reflexivity |].
      split; [cbn; now rewrite Hl |]. split; [exact Hwf' |]. split; [exact Hact' |].
      split.
      * intros k c Hc. unfold is_press_on at 1. cbn [as_zmk_position_state_changed].
        rewrite Hst. cbn [andb].
        destruct (Nat.eqb_spec (resolver (position ev)) k) as [<- | Hne].
        -- rewrite Hc0 in Hc. injection Hc as <-.
           rewrite (Hk (resolver (position ev)) (CInt.to_uint32 (c0 + 1))).
           2:{ cbn. apply list_lookup_insert_eq. eapply lookup_lt_Some; eassumption. }
           f_equal. unfold CInt.to_uint32. change (2 ^ 32) with 4294967296.
           rewrite Zplus_mod_idemp_l. f_equal. lia.
        -- rewrite (Hk k c); [reflexivity |].
           cbn. rewrite list_lookup_insert_ne by assumption. exact Hc.
      * rewrite Hreq. cbn [frame_requests w1]. cbn.
        apply (replicate_cons_middle _ 1 (frame_requests w)).
    + destruct Hstep as (r & E & _). rewrite E. cbn [obind snd fst].
      destruct (IH w Hwf Hact) as (rs & w' & Ed & Hl & Hwf' & Hact' & Hk & Hreq).
      rewrite Ed. cbn [obind snd fst].
      exists (r :: rs), w'. split; [reflexivity |].
      split; [cbn; now rewrite Hl |]. split; [exact Hwf' |]. split; [exact Hact' |].
      split; [| exact Hreq].
      intros k c Hc. rewrite (Hk k c Hc).
      assert (Hoff : is_press_on resolver k event = false).
      { destruct (is_press_on resolver k event) eqn:Hon; [exfalso | reflexivity].
        unfold is_press_on, is_press_below in *.
        destruct (as_zmk_position_state_changed event) as [ev |]; [| discriminate].
        apply andb_true_iff in Hon as [Hst Heq]. apply Nat.eqb_eq in Heq.
        rewrite Hst in Hb. cbn in Hb. apply Nat.ltb_ge in Hb.
        destruct Hwf as (_ & Hlen & _). apply lookup_lt_Some in Hc. lia. }
      rewrite Hoff. reflexivity.
Qed.

(** X3: on an active device of the declared shape a stream of events is
    handled without a fault; afterwards every counter holds its old value
    plus the number of press events of the stream that resolve to its slot,
    modulo 2^32, and one frame was requested per press that resolves into
    the map. *)
Theorem dispatch_counts config w events :
  wf_device config (dev_data w) ->
  is_active (dev_data w) = true ->
  exists rs w',
    dispatch resolver config w events = Ok (rs, w') /\
    length rs = length events /\
    wf_device config (dev_data w') /\
    is_active (dev_data w') = true /\
    (forall k c, key_counts (dev_data w) !! k = Some c ->
       key_counts (dev_data w') !! k =
         Some ((c + Z.of_nat (count_events (is_press_on resolver k) events)) mod 2 ^ 32)) /\
    frame_requests w' =
      replicate (count_events (is_press_below resolver (pixel_map_size config)) events) 1
        ++ frame_requests w.
Proof. apply dispatch_run. Qed.

(** X13: an instance as the definition macro declares it, after init and
    start, counts presses: after any stream of events the counter of every
    slot is the number of press events that resolve to it, modulo 2^32, and
    the scheduler holds the request of start and one request per press that
    resolves into the map. *)
Theorem fresh_instance_counts config events :
  length (pixel_map config) = pixel_map_size config ->
  exists w0 rs w',
    fx_heatmap_init config (mk_host (initial_data config) []) = Ok (0, w0) /\
    dispatch resolver config (fx_heatmap_start w0) events = Ok (rs, w') /\
    (forall k, (k < pixel_map_size config)%nat ->
       key_counts (dev_data w') !! k =
         Some (Z.of_nat (count_events (is_press_on resolver k) events) mod 2 ^ 32)) /\
    frame_requests w' =
      replicate (count_events (is_press_below resolver (pixel_map_size config)) events) 1
        ++ [1].
Proof.
  intros Hmap.
  set (w0 := mk_host (initial_data config) []).
  assert (Ei : fx_heatmap_init config w0 = Ok (0, w0)).
  { unfold fx_heatmap_init, w0, initial_data. cbn [dev_data key_counts].
    rewrite init_loop_start by (rewrite length_replicate; lia).
    reflexivity. }
  assert (Hwf : wf_device config (dev_data (fx_heatmap_start w0))).
  { split; [exact Hmap |]. split; [apply length_replicate |].
    apply Forall_replicate. unfold CInt.is_uint32. lia. }
  destruct (dispatch_run config (fx_heatmap_start w0) events Hwf eq_refl)
    as (rs & w' & E & _ & _ & _ & Hk & Hreq).
  exists w0, rs, w'. split; [exact Ei |]. split; [exact E |]. split; [| exact Hreq].
  intros k Hlt. rewrite (Hk k 0); [reflexivity |].
  cbn. now apply lookup_replicate_2.
Qed.

End Dispatch.

(** ** Initialisation *)

(** X1: with one counter per slot, init returns 0 and leaves every counter
    at zero, whatever it held, without touching the active flag or the
    scheduler; a second init changes nothing more. *)
Theorem init_zeroes (config : fx_heatmap_config) (w : host) :
  length (key_counts (dev_data w)) = pixel_map_size config ->
  exists w0,
    fx_heatmap_init config w = Ok (0, w0) /\
    key_counts (dev_data w0) = replicate (pixel_map_size config) 0 /\
    is_active (dev_data w0) = is_active (dev_data w) /\
    frame_requests w0 = frame_requests w /\
    fx_heatmap_init config w0 = Ok (0, w0).
Proof.
  intros Hlen. unfold fx_heatmap_init.
  rewrite init_loop_spec by lia. rewrite take_0. cbn [obind app].
  eexists. split; [reflexivity |]. cbn [dev_data key_counts is_active frame_requests].
  split; [reflexivity |]. split; [reflexivity |]. split; [reflexivity |].
  rewrite init_loop_spec by (rewrite length_replicate; lia).
  rewrite take_0. reflexivity.
Qed.

Lemma init_zeroes_witness :
  fx_heatmap_init sample_config sample_host =
  Ok (0, mk_host (mk_data [0; 0; 0] true) []).
Proof.
  destruct (init_zeroes sample_config sample_host eq_refl) as (w0 & E & Hc & Ha & Hr & _).
  rewrite E. destruct w0 as [[counts b] reqs]. cbn in Hc, Ha, Hr. subst. reflexivity.
Defined.

(** ** Exact cases of the binary32 arithmetic *)

Module Float32Exact.

Import Float32 Float32Facts.

(** A 24-bit mantissa at an exponent in range is kept by the rounding. *)
Lemma round_canonical (sx : bool) (m : positive) (e : Z) :
  Zdigits2 (Z.pos m) = 24 -> -149 <= e <= 104 ->
  binary_round_aux prec emax sx (Z.pos m) e (loc_frac 0 1) = S754_finite sx m e.
Proof.
  intros Hd He.
  assert (Hk1 : 0 = shift_of (Z.pos m) e)
    by (unfold shift_of; rewrite Hd, fexp_eq; lia).
  assert (Hm1 : Z.pos m =
                round_nearest_even (Z.pos m / 2 ^ 0) (loc_frac (Z.pos m mod 2 ^ 0) (2 ^ 0))).
  { rewrite Z.pow_0_r, Z.div_1_r, Z.mod_1_r. reflexivity. }
  assert (Hk2 : 0 = shift_of (Z.pos m) (e + 0)) by (rewrite Z.add_0_r; exact Hk1).
  rewrite (binary_round_aux_steps sx (Z.pos m) e 0 (Z.pos m) 0 ltac:(lia) Hk1 Hm1 Hk2).
  rewrite Z.pow_0_r, Z.div_1_r, !Z.add_0_r.
  destruct (Z.leb_spec e 104); [reflexivity | lia].
Qed.

Lemma aligned_digits (p mz : positive) (ez : Z) :
  Z.pos p < 2 ^ 24 ->
  Z.pos mz = Z.pos p * 2 ^ (- ez) -> ez = Z.min 0 (Zdigits2 (Z.pos p) - 24) ->
  Zdigits2 (Z.pos mz) = 24 /\ -23 <= ez <= 0.
Proof.
  intros Hp Hv Hez.
  pose proof (Zdigits2_bounds (Z.pos p) ltac:(lia)) as Hn.
  pose proof (Zdigits2_le (Z.pos p) 24 ltac:(lia) ltac:(lia)) as Hn24.
  assert (Hn0 : 0 < Zdigits2 (Z.pos p)) by (cbn; lia).
  set (n := Zdigits2 (Z.pos p)) in *.
  assert (Eez : ez = n - 24) by lia.
  split; [| lia].
  apply Zdigits2_unique; [| lia].
  rewrite Hv, Eez. replace (- (n - 24)) with (24 - n) by lia.
  pose proof (pow2_pos (24 - n) ltac:(lia)).
  replace (2 ^ (24 - 1)) with (2 ^ (n - 1) * 2 ^ (24 - n))
    by (rewrite <- pow2_split by lia; f_equal; lia).
  replace (2 ^ 24) with (2 ^ n * 2 ^ (24 - n))
    by (rewrite <- pow2_split by lia; f_equal; lia).
  nia.
Qed.

(** An integer of at most 24 bits converts without rounding. *)
Lemma of_Z_small (z : Z) :
  z <> 0 -> Z.abs z < 2 ^ 24 ->
  exists m e,
    of_Z z = S754_finite (z <? 0) m e /\ -23 <= e <= 0 /\
    Z.pos m = Z.abs z * 2 ^ (- e) /\ Zdigits2 (Z.pos m) = 24.
Proof.
  intros Hz Ha. destruct z as [| p | p]; [congruence | |].
  - destruct (of_Z_pos_round p) as (mz & ez & E & _ & Hv & Hez).
    destruct (aligned_digits p mz ez Ha Hv Hez) as [Hd He].
    exists mz, ez. rewrite E, round_canonical by (assumption || lia).
    repeat split; try assumption; lia.
  - destruct (of_Z_neg_round p) as (mz & ez & E & _ & Hv & Hez).
    destruct (aligned_digits p mz ez Ha Hv Hez) as [Hd He].
    exists mz, ez. rewrite E, round_canonical by (assumption || lia).
    repeat split; try assumption; lia.
Qed.

(** A positive number divided by itself is exactly one. *)
Lemma div_self (m : positive) (e : Z) :
  div (S754_finite false m e) (S754_finite false m e) = S754_finite false 8388608 (-23).
Proof.
  unfold div, SFdiv, SFdiv_core_binary.
  replace (Zdigits2 (Z.pos m) + e - (Zdigits2 (Z.pos m) + e)) with 0 by lia.
  rewrite Z.sub_diag.
  change (Z.min (fexp prec emax 0) 0) with (-24).
  change (0 - -24) with 24.
  cbv beta iota.
  pose proof (Z_div_mod (Z.shiftl (Z.pos m) 24) (Z.pos m) ltac:(lia)) as Hdm.
  destruct (Z.div_eucl (Z.shiftl (Z.pos m) 24) (Z.pos m)) as [q r].
  destruct Hdm as [Hq Hr]. rewrite Z.shiftl_mul_pow2 in Hq by lia.
  change (2 ^ 24) with 16777216 in Hq.
  assert (Eq : q = 16777216).
  { destruct (Z.lt_trichotomy q 16777216) as [Hlt | [Heq | Hgt]]; [| exact Heq |].
    - assert (Z.pos m * (q + 1) <= Z.pos m * 16777216)
        by (apply Z.mul_le_mono_nonneg_l; lia). lia.
    - assert (Z.pos m * 16777216 < Z.pos m * q)
        by (apply Z.mul_lt_mono_pos_l; lia). lia. }
  subst q. assert (Er : r = 0) by lia. subst r.
  assert (Hl : new_location (Z.pos m) 0 = loc_Exact)
    by (unfold new_location; destruct (Z.even (Z.pos m)); reflexivity).
  rewrite Hl. reflexivity.
Qed.

(** Multiplication by one keeps a number with a 24-bit mantissa. *)
Lemma mul_one (sx : bool) (m : positive) (e : Z) :
  Zdigits2 (Z.pos m) = 24 -> -126 <= e <= 104 ->
  mul (S754_finite sx m e) (S754_finite false 8388608 (-23)) = S754_finite sx m e.
Proof.
  intros Hd He. unfold mul, SFmul. rewrite xorb_false_r.
  change loc_Exact with (loc_frac 0 1).
  rewrite Pos2Z.inj_mul. change (Z.pos 8388608) with (2 ^ 23).
  destruct (Zdigits2_bounds (Z.pos m) ltac:(lia)) as [Hlo Hhi]. rewrite Hd in Hlo, Hhi.
  assert (Hd' : Zdigits2 (Z.pos m * 2 ^ 23) = 47).
  { apply Zdigits2_unique; [| lia].
    change (2 ^ (47 - 1)) with (2 ^ 23 * 2 ^ 23). change (2 ^ 47) with (2 ^ 24 * 2 ^ 23).
    change (24 - 1) with 23 in Hlo. lia. }
  assert (Hk1 : 23 = shift_of (Z.pos m * 2 ^ 23) (e + -23))
    by (unfold shift_of; rewrite Hd', fexp_eq; lia).
  assert (Hm1 : Z.pos m =
                round_nearest_even (Z.pos m * 2 ^ 23 / 2 ^ 23)
                  (loc_frac ((Z.pos m * 2 ^ 23) mod 2 ^ 23) (2 ^ 23))).
  { rewrite Z.div_mul, Z.mod_mul by lia. reflexivity. }
  assert (Hk2 : 0 = shift_of (Z.pos m) (e + -23 + 23)).
  { unfold shift_of. rewrite Hd, fexp_eq. lia. }
  rewrite (binary_round_aux_steps sx (Z.pos m * 2 ^ 23) (e + -23) 23 (Z.pos m) 0
             ltac:(lia) Hk1 Hm1 Hk2).
  rewrite Z.pow_0_r, Z.div_1_r.
  replace (e + -23 + 23 + 0) with e by lia.
  destruct (Z.leb_spec e 104); [reflexivity | lia].
Qed.

(** The integral part of the [float] of a 24-bit integer is the integer. *)
Lemma truncate_of_Z (z : Z) : Z.abs z < 2 ^ 24 -> truncate (of_Z z) = Some z.
Proof.
  intros Ha. destruct (Z.eq_dec z 0) as [-> | Hz]; [reflexivity |].
  destruct (of_Z_small z Hz Ha) as (m & e & -> & He & Hv & _).
  cbn [truncate]. f_equal.
  replace e with (- - e) at 1 by lia.
  rewrite Z.shiftl_opp_r, Z.shiftr_div_pow2, Hv by lia.
  rewrite Z.div_mul by (pose proof (pow2_pos (- e) ltac:(lia)); lia).
  destruct (Z.ltb_spec z 0); cbn [cond_Zopp]; lia.
Qed.

End Float32Exact.

(** ** The ends of the interpolation *)

Lemma usage_of_zero (max_count : Z) :
  1 <= max_count < 2 ^ 32 -> usage_of 0 max_count = S754_zero false.
Proof.
  intros Hm. unfold usage_of.
  destruct (Float32Facts.of_Z_pos_shape max_count ltac:(lia)) as (m & e & -> & _).
  reflexivity.
Qed.

Lemma usage_of_full (max_count : Z) :
  1 <= max_count < 2 ^ 32 ->
  usage_of max_count max_count = S754_finite false 8388608 (-23).
Proof.
  intros Hm. unfold usage_of.
  destruct (Float32Facts.of_Z_pos_shape max_count ltac:(lia)) as (m & e & -> & _).
  apply Float32Exact.div_self.
Qed.

Lemma hue_offset_at_zero (d : Z) :
  Z.abs d < 2 ^ 24 -> hue_offset d (S754_zero false) = Ok 0.
Proof.
  intros Hd. unfold hue_offset.
  destruct (Z.eq_dec d 0) as [-> | Hz]; [reflexivity |].
  destruct (Float32Exact.of_Z_small d Hz Hd) as (m & e & -> & _).
  reflexivity.
Qed.

Lemma hue_offset_at_one (d : Z) :
  CInt.is_int16 d -> hue_offset d (S754_finite false 8388608 (-23)) = Ok d.
Proof.
  intros Hd. unfold CInt.is_int16 in Hd. unfold hue_offset.
  assert (Ha : Z.abs d < 2 ^ 24) by (change (2 ^ 24) with 16777216; lia).
  assert (Em : Float32.mul (Float32.of_Z d) (S754_finite false 8388608 (-23))
               = Float32.of_Z d).
  { destruct (Z.eq_dec d 0) as [-> | Hz]; [reflexivity |].
    destruct (Float32Exact.of_Z_small d Hz Ha) as (m & e & -> & He & _ & Hdig).
    apply Float32Exact.mul_one; [exact Hdig | lia]. }
  rewrite Em. unfold Float32.to_int16.
  rewrite (Float32Exact.truncate_of_Z d Ha).
  destruct (Z.leb_spec (-32768) d); [| lia].
  destruct (Z.leb_spec d 32767); [reflexivity | lia].
Qed.

Lemma hue_delta_of_int16 (config : fx_heatmap_config) :
  CInt.is_int16 (hue_delta_of config).
Proof. pose proof (hue_delta_of_range config). unfold CInt.is_int16. lia. Qed.

(** X5: exchanging the two configured hues negates the delta: the arc from
    hot to cold is the arc from cold to hot walked backwards, also when the
    hues are exactly opposite. *)
Theorem hue_delta_antisymmetric (config config' : fx_heatmap_config) :
  valid_hues config ->
  color_cold_hue config' = color_hot_hue config ->
  color_hot_hue config' = color_cold_hue config ->
  hue_delta_of config' = - hue_delta_of config.
Proof.
  intros Hv Ec Eh.
  assert (Hv' : valid_hues config') by (unfold valid_hues in *; rewrite Ec, Eh; lia).
  rewrite (hue_delta_of_spec config Hv), (hue_delta_of_spec config' Hv'), Ec, Eh.
  unfold spec_hue_delta. cbv zeta. destruct Hv as [Hc Hh].
  destruct (Z.ltb_spec 180 (color_cold_hue config - color_hot_hue config));
    destruct (Z.ltb_spec (color_cold_hue config - color_hot_hue config) (-180));
    destruct (Z.ltb_spec 180 (color_hot_hue config - color_cold_hue config));
    destruct (Z.ltb_spec (color_hot_hue config - color_cold_hue config) (-180));
    lia.
Qed.

Lemma hue_delta_antisymmetric_witness :
  hue_delta_of upward_config = - hue_delta_of downward_config.
Proof.
  apply (hue_delta_antisymmetric downward_config upward_config).
  - unfold valid_hues. cbn. lia.
  - reflexivity.
  - reflexivity.
Defined.

(** X6: a slot that was never pressed takes the cold hue reduced modulo 360,
    whatever the maximum is; for a configured hue that is the cold hue
    itself. *)
Theorem zero_count_cold_hue (config : fx_heatmap_config) (max_count : Z) :
  1 <= max_count < 2 ^ 32 ->
  0 <= color_cold_hue config < 65536 ->
  pixel_hue config 0 max_count = Ok (color_cold_hue config mod 360) /\
  (color_cold_hue config < 360 ->
   pixel_hue config 0 max_count = Ok (color_cold_hue config)).
Proof.
  intros Hm Hc.
  assert (E : pixel_hue config 0 max_count = Ok (color_cold_hue config mod 360)).
  { rewrite (pixel_hue_formula config 0 max_count 0).
    - rewrite Z.add_0_r. unfold CInt.to_uint16. now rewrite (Z.mod_small _ 65536).
    - rewrite usage_of_zero by assumption. apply hue_offset_at_zero.
      pose proof (hue_delta_of_range config). change (2 ^ 24) with 16777216. lia. }
  split; [exact E |]. intros Hlt. rewrite E. now rewrite Z.mod_small by lia.
Qed.

Lemma zero_count_cold_hue_witness : pixel_hue downward_config 0 1 = Ok 10.
Proof.
  apply (zero_count_cold_hue downward_config 1); [lia | cbn; lia | cbn; lia].
Defined.

(** X7: the most pressed slot, whose count is the maximum, gets the whole
    delta.  For configured hues its hue is the hot hue, except when hot
    exceeds cold by more than 180, where the sum is negative and the hue
    comes out as hot + 16 modulo 360. *)
Theorem full_count_hue (config : fx_heatmap_config) (max_count : Z) :
  valid_hues config ->
  1 <= max_count < 2 ^ 32 ->
  hue_offset (hue_delta_of config) (usage_of max_count max_count) =
    Ok (hue_delta_of config) /\
  pixel_hue config max_count max_count =
    Ok (if color_hot_hue config - color_cold_hue config <=? 180
        then color_hot_hue config
        else (color_hot_hue config + 16) mod 360).
Proof.
  intros Hv Hm.
  assert (Eo : hue_offset (hue_delta_of config) (usage_of max_count max_count) =
               Ok (hue_delta_of config)).
  { rewrite usage_of_full by assumption. apply hue_offset_at_one, hue_delta_of_int16. }
  split; [exact Eo |].
  rewrite (pixel_hue_formula config max_count max_count _ Eo). f_equal.
  rewrite (hue_delta_of_spec config Hv). unfold spec_hue_delta, CInt.to_uint16. cbv zeta.
  destruct Hv as [Hc Hh].
  set (cold := color_cold_hue config) in *. set (hot := color_hot_hue config) in *.
  destruct (Z.ltb_spec 180 (hot - cold)) as [Hgt | Hle].
  - destruct (Z.leb_spec (hot - cold) 180); [lia |].
    replace (cold + (hot - cold - 360)) with (hot - 360) by lia.
    replace ((hot - 360) mod 65536) with (hot + 16 + 181 * 360).
    + now rewrite Z.mod_add by lia.
    + apply (Z.mod_unique _ _ (-1)); lia.
  - destruct (Z.leb_spec (hot - cold) 180); [| lia].
    destruct (Z.ltb_spec (hot - cold) (-180)).
    + replace (cold + (hot - cold + 360)) with (hot + 1 * 360) by lia.
      rewrite (Z.mod_small _ 65536) by lia.
      rewrite Z.mod_add by lia. apply Z.mod_small. lia.
    + replace (cold + (hot - cold)) with hot by lia.
      rewrite (Z.mod_small _ 65536) by lia. apply Z.mod_small. lia.
Qed.

Lemma full_count_hue_witness :
  pixel_hue upward_config 7 7 = Ok 10 /\ pixel_hue downward_config 7 7 = Ok 6.
Proof.
  split.
  - apply (full_count_hue upward_config 7); [unfold valid_hues; cbn; lia | lia].
  - apply (full_count_hue downward_config 7); [unfold valid_hues; cbn; lia | lia].
Defined.

(** X8: for configured hues and any slot, a negative sum of cold hue and
    offset does not come out modulo 360: stored in the [uint16_t] it gains
    65536, and the hue is the sum plus 16, modulo 360. *)
Theorem negative_sum_hue (config : fx_heatmap_config) (c max_count : Z) :
  valid_hues config ->
  0 <= c <= max_count -> 1 <= max_count < 2 ^ 32 ->
  exists off,
    hue_offset (hue_delta_of config) (usage_of c max_count) = Ok off /\
    (color_cold_hue config + off < 0 ->
     pixel_hue config c max_count = Ok ((color_cold_hue config + off + 16) mod 360)).
Proof.
  intros [Hc Hh] Hcm Hm.
  destruct (hue_offset_defined config c max_count Hcm Hm) as (off & E & Hoff).
  exists off. split; [exact E |]. intros Hneg.
  rewrite (pixel_hue_formula config c max_count off E). f_equal.
  pose proof (hue_delta_of_range config).
  assert (Hr : -32768 <= off) by (destruct (hue_delta_of config <? 0); lia).
  unfold CInt.to_uint16.
  replace ((color_cold_hue config + off) mod 65536)
    with (color_cold_hue config + off + 16 + 182 * 360).
  - now rewrite Z.mod_add by lia.
  - apply (Z.mod_unique _ _ (-1)); lia.
Qed.

(** X11: when hot and cold hue are equal every slot takes that hue,
    whatever the counters hold. *)
Theorem equal_hues_uniform (config : fx_heatmap_config) (c max_count : Z) :
  color_hot_hue config = color_cold_hue config ->
  0 <= color_cold_hue config < 65536 ->
  0 <= c <= max_count -> 1 <= max_count < 2 ^ 32 ->
  pixel_hue config c max_count = Ok (color_cold_hue config mod 360).
Proof.
  intros Eh Hc Hcm Hm.
  destruct (hue_offset_defined config c max_count Hcm Hm) as (off & E & Hoff).
  assert (Hd : hue_delta_of config = 0).
  { unfold hue_delta_of. rewrite Eh, Z.sub_diag. reflexivity. }
  rewrite Hd in Hoff. cbn in Hoff. assert (off = 0) by lia. subst off.
  rewrite (pixel_hue_formula config c max_count 0 E), Z.add_0_r.
  unfold CInt.to_uint16. now rewrite (Z.mod_small _ 65536).
Qed.

Lemma equal_hues_uniform_witness :
  pixel_hue (mk_config [0]%nat 1 0 200 200 100 50) 3 4 = Ok 200.
Proof.
  apply (equal_hues_uniform (mk_config [0]%nat 1 0 200 200 100 50) 3 4);
    [reflexivity | cbn; lia | lia | lia].
Defined.

(** X12: for configured hues at most 180 apart the hue of every slot lies
    between the two hues: the interpolation never leaves the arc. *)
Theorem hue_between (config : fx_heatmap_config) (c max_count : Z) :
  valid_hues config ->
  -180 <= color_hot_hue config - color_cold_hue config <= 180 ->
  0 <= c <= max_count -> 1 <= max_count < 2 ^ 32 ->
  exists hue,
    pixel_hue config c max_count = Ok hue /\
    Z.min (color_cold_hue config) (color_hot_hue config) <= hue <=
    Z.max (color_cold_hue config) (color_hot_hue config).
Proof.
  intros Hv Hnear Hcm Hm.
  destruct (hue_offset_defined config c max_count Hcm Hm) as (off & E & Hoff).
  rewrite (hue_delta_of_spec config Hv) in Hoff. unfold spec_hue_delta in Hoff.
  cbv zeta in Hoff. destruct Hv as [Hc Hh].
  destruct (Z.ltb_spec 180 (color_hot_hue config - color_cold_hue config)); [lia |].
  destruct (Z.ltb_spec (color_hot_hue config - color_cold_hue config) (-180)); [lia |].
  eexists. split; [apply (pixel_hue_formula config c max_count off E) |].
  unfold CInt.to_uint16.
  destruct (Z.ltb_spec (color_hot_hue config - color_cold_hue config) 0).
  - rewrite (Z.mod_small _ 65536) by lia. rewrite Z.mod_small by lia. lia.
  - rewrite (Z.mod_small _ 65536) by lia. rewrite Z.mod_small by lia. lia.
Qed.

Lemma hue_between_witness :
  exists hue, pixel_hue sample_config 5 10 = Ok hue /\ 0 <= hue <= 120.
Proof.
  apply (hue_between sample_config 5 10); [unfold valid_hues; cbn; lia | cbn; lia | lia | lia].
Defined.

(** ** The content of a frame *)

Section FrameContent.

Variable rgb : Type.
Variable hsl_to_rgb : zmk_color_hsl -> rgb.
Variable blend : rgb -> rgb -> Z -> rgb.

Local Abbreviation loop := (render_loop rgb hsl_to_rgb blend).
Local Abbreviation render_frame := (fx_heatmap_render_frame rgb hsl_to_rgb blend).
Local Abbreviation color := (pixel_color rgb hsl_to_rgb).

(** One turn of the second loop. *)
Lemma render_loop_step (config : fx_heatmap_config) (counts : list Z) (max_count : Z)
    (remaining i : nat) (pixels : list (rgb_fx_pixel rgb)) (c hue : Z) (p : nat)
    (px : rgb_fx_pixel rgb) :
  counts !! i = Some c ->
  pixel_hue config c max_count = Ok hue ->
  pixel_map config !! i = Some p ->
  pixels !! p = Some px ->
  loop config counts max_count (S remaining) i pixels =
  loop config counts max_count remaining (S i)
    (<[p := blended blend (blending_mode config) (color config hue) px]> pixels).
Proof.
  intros Hc Hh Hp Hpx. cbn [render_loop].
  rewrite (load_lookup _ _ _ _ Hc). cbn [obind]. rewrite Hh. cbn [obind].
  rewrite (load_lookup _ _ _ _ Hp). cbn [obind].
  rewrite (load_lookup _ _ _ _ Hpx). cbn [obind].
  rewrite store_in_range by (eapply lookup_lt_Some; eassumption).
  reflexivity.
Qed.

(** With distinct map entries each remaining slot is written once, from the
    pixel that the buffer held on entry. *)
Lemma render_loop_content (config : fx_heatmap_config) (counts : list Z) (max_count : Z)
    (remaining i : nat) (pixels pixels' : list (rgb_fx_pixel rgb)) :
  (i + remaining = length counts)%nat ->
  length (pixel_map config) = length counts ->
  (forall j c, counts !! j = Some c -> 0 <= c <= max_count) ->
  1 <= max_count < 2 ^ 32 ->
  map_in_range config (length pixels) ->
  NoDup (drop i (pixel_map config)) ->
  loop config counts max_count remaining i pixels = Ok pixels' ->
  forall j p c, (i <= j)%nat ->
    pixel_map config !! j = Some p -> counts !! j = Some c ->
    exists hue px,
      pixel_hue config c max_count = Ok hue /\
      pixels !! p = Some px /\
      pixels' !! p = Some (blended blend (blending_mode config) (color config hue) px).
Proof.
  revert i pixels. induction remaining as [| remaining IH];
    intros i pixels Hlen Hmap Hall HM Hin Hnd E j p c Hij Hp Hc.
  - apply lookup_lt_Some in Hc. lia.
  - destruct (lookup_lt_is_Some_2 counts i ltac:(lia)) as [ci Hci].
    destruct (pixel_hue_defined config ci max_count (Hall i ci Hci) HM) as (hue & Eh & _).
    destruct (lookup_lt_is_Some_2 (pixel_map config) i ltac:(lia)) as [pi Hpi].
    assert (Hpl : (pi < length pixels)%nat) by exact (Forall_lookup_1 _ _ _ _ Hin Hpi).
    destruct (lookup_lt_is_Some_2 pixels pi Hpl) as [px Hpx].
    rewrite (render_loop_step config counts max_count remaining i pixels ci hue pi px
               Hci Eh Hpi Hpx) in E.
    set (pixels1 := <[pi := blended blend (blending_mode config) (color config hue) px]> pixels) in *.
    rewrite (drop_S _ _ _ Hpi) in Hnd. apply NoDup_cons in Hnd as [Hfresh Hnd].
    assert (Hin1 : map_in_range config (length pixels1))
      by (unfold pixels1, map_in_range; now rewrite length_insert).
    destruct (Nat.eq_dec j i) as [-> | Hne].
    + rewrite Hpi in Hp. injection Hp as <-. rewrite Hci in Hc. injection Hc as <-.
      exists hue, px. split; [exact Eh |]. split; [exact Hpx |].
      destruct (render_loop_ok rgb hsl_to_rgb blend config counts max_count remaining
                  (S i) pixels1) as (out & E' & _ & _ & Hk); try assumption; [lia |].
      rewrite E in E'. injection E' as <-.
      rewrite (Hk pi Hfresh). unfold pixels1. now apply list_lookup_insert_eq.
    + destruct (IH (S i) pixels1 ltac:(lia) Hmap Hall HM Hin1 Hnd E j p c ltac:(lia) Hp Hc)
        as (hue' & px' & Eh' & Hpx' & Hout).
      exists hue', px'. split; [exact Eh' |]. split; [| exact Hout].
      unfold pixels1 in Hpx'. rewrite list_lookup_insert_ne in Hpx'; [exact Hpx' |].
      intros <-. apply Hfresh.
      apply list_elem_of_lookup. exists (j - S i)%nat.
      rewrite lookup_drop. replace (S i + (j - S i))%nat with j by lia. exact Hp.
Qed.

Lemma render_frame_content_aux (config : fx_heatmap_config)
    (data : fx_heatmap_data) (pixels : list (rgb_fx_pixel rgb)) :
  wf_device config data ->
  map_in_range config (length pixels) ->
  NoDup (pixel_map config) ->
  exists max_count pixels',
    1 <= max_count < 2 ^ 32 /\
    find_max_count config data = Ok max_count /\
    render_frame config data pixels = Ok pixels' /\
    forall i p c,
      pixel_map config !! i = Some p -> key_counts data !! i = Some c ->
      exists hue px,
        pixel_hue config c max_count = Ok hue /\
        pixels !! p = Some px /\
        pixels' !! p = Some (blended blend (blending_mode config) (color config hue) px).
Proof.
  intros Hwf Hin Hnd.
  destruct (render_frame_ok rgb hsl_to_rgb blend config data pixels Hwf Hin)
    as (pixels' & E & _).
  destruct Hwf as (Hmap & Hlen & Hu).
  destruct (spec_max_count_bounds (key_counts data) Hu) as [HM Hall].
  exists (spec_max_count (key_counts data)), pixels'.
  split; [exact HM |]. split; [now apply find_max_count_spec |]. split; [exact E |].
  intros i p c Hp Hc.
  unfold fx_heatmap_render_frame in E.
  rewrite (find_max_count_spec config data Hlen) in E. cbn [obind] in E.
  apply (render_loop_content config (key_counts data) (spec_max_count (key_counts data))
           (pixel_map_size config) 0 pixels pixels'
           ltac:(lia) ltac:(lia) Hall HM Hin Hnd E i p c ltac:(lia) Hp Hc).
Qed.

(** X9: on a device of the declared shape whose map names distinct pixels
    inside the buffer, the frame holds, at the pixel of every slot, the old
    colour of that pixel blended with the colour of the slot's hue, at an
    unchanged place. *)
Theorem render_frame_content (config : fx_heatmap_config)
    (data : fx_heatmap_data) (pixels : list (rgb_fx_pixel rgb)) :
  wf_device config data ->
  map_in_range config (length pixels) ->
  NoDup (pixel_map config) ->
  exists max_count pixels',
    find_max_count config data = Ok max_count /\
    render_frame config data pixels = Ok pixels' /\
    forall i p c,
      pixel_map config !! i = Some p -> key_counts data !! i = Some c ->
      exists hue px,
        pixel_hue config c max_count = Ok hue /\
        pixels !! p = Some px /\
        pixels' !! p =
          Some (mk_pixel (position_x px) (position_y px)
                  (blend (value px)
                     (hsl_to_rgb (mk_hsl hue (saturation config) (lightness config)))
                     (blending_mode config))).
Proof.
  intros Hwf Hin Hnd.
  destruct (render_frame_content_aux config data pixels Hwf Hin Hnd)
    as (max_count & pixels' & _ & Em & E & H).
  exists max_count, pixels'. split; [exact Em |]. split; [exact E |]. exact H.
Qed.

(** X10: after init, on a map of distinct pixels inside the buffer, a frame
    blends the colour of the cold hue into the pixel of every slot. *)
Theorem render_after_init (config : fx_heatmap_config) (w : host)
    (pixels : list (rgb_fx_pixel rgb)) :
  length (pixel_map config) = pixel_map_size config ->
  length (key_counts (dev_data w)) = pixel_map_size config ->
  0 <= color_cold_hue config < 360 ->
  map_in_range config (length pixels) ->
  NoDup (pixel_map config) ->
  exists w0 pixels',
    fx_heatmap_init config w = Ok (0, w0) /\
    render_frame config (dev_data w0) pixels = Ok pixels' /\
    forall i p, pixel_map config !! i = Some p ->
      exists px,
        pixels !! p = Some px /\
        pixels' !! p =
          Some (mk_pixel (position_x px) (position_y px)
                  (blend (value px)
                     (hsl_to_rgb (mk_hsl (color_cold_hue config)
                                    (saturation config) (lightness config)))
                     (blending_mode config))).
Proof.
  intros Hmap Hlen Hcold Hin Hnd.
  set (data0 := mk_data (replicate (pixel_map_size config) 0) (is_active (dev_data w))).
  assert (Ei : fx_heatmap_init config w = Ok (0, mk_host data0 (frame_requests w))).
  { unfold fx_heatmap_init. rewrite init_loop_spec by lia. now rewrite take_0. }
  assert (Hwf : wf_device config data0).
  { split; [exact Hmap |]. split; [apply length_replicate |].
    apply Forall_replicate. unfold CInt.is_uint32. lia. }
  destruct (render_frame_content_aux config data0 pixels Hwf Hin Hnd)
    as (max_count & pixels' & HM & _ & E & H).
  exists (mk_host data0 (frame_requests w)), pixels'.
  split; [exact Ei |]. split; [exact E |].
  intros i p Hp.
  assert (Hc : key_counts data0 !! i = Some 0).
  { cbn. apply lookup_replicate_2. apply lookup_lt_Some in Hp. lia. }
  destruct (H i p 0 Hp Hc) as (hue & px & Eh & Hpx & Hout).
  exists px. split; [exact Hpx |]. rewrite Hout.
  assert (Ehue : pixel_hue config 0 max_count = Ok (color_cold_hue config)).
  { rewrite (pixel_hue_formula config 0 max_count 0).
    - rewrite Z.add_0_r. unfold CInt.to_uint16.
      rewrite (Z.mod_small _ 65536) by lia. now rewrite Z.mod_small by lia.
    - rewrite usage_of_zero by assumption. apply hue_offset_at_zero.
      pose proof (hue_delta_of_range config). change (2 ^ 24) with 16777216. lia. }
  rewrite Ehue in Eh. injection Eh as <-. reflexivity.
Qed.

End FrameContent.

Lemma on_key_press_invariant_witness :
  wf_device sample_config (dev_data sample_host) /\
  exists r w',
    fx_heatmap_on_key_press sample_resolver sample_config sample_host (press 9) = Ok (r, w') /\
    (r = 0 \/ r = - ENOTSUP \/ r = - EINVAL) /\
    wf_device sample_config (dev_data w').
Proof.
  assert (Hwf : wf_device sample_config (dev_data sample_host)).
  { unfold wf_device, CInt.is_uint32. cbn. repeat constructor; lia. }
  split; [exact Hwf |].
  destruct (on_key_press_invariant sample_resolver sample_config sample_host (press 9) Hwf)
    as (r & w' & E & Hr & _ & Hwf' & _).
  exists r, w'. split; [exact E |]. split; [exact Hr | exact Hwf'].
Defined.

Lemma dispatch_inactive_witness :
  dispatch sample_resolver sample_config (fx_heatmap_stop sample_host)
    [press 1; OtherEvent 0; press 9] =
  Ok ([0; 0; 0], fx_heatmap_stop sample_host).
Proof.
  apply (dispatch_inactive sample_resolver sample_config (fx_heatmap_stop sample_host)
           [press 1; OtherEvent 0; press 9]).
  reflexivity.
Defined.

Lemma dispatch_counts_witness :
  wf_device sample_config (dev_data (fx_heatmap_start sample_host)) /\
  exists rs w',
    dispatch sample_resolver sample_config (fx_heatmap_start sample_host)
      [press 2; press 9; press 2; OtherEvent 0; press 2] = Ok (rs, w') /\
    key_counts (dev_data w') !! 2%nat = Some 8 /\
    frame_requests w' = [1; 1; 1; 1].
Proof.
  assert (Hwf : wf_device sample_config (dev_data (fx_heatmap_start sample_host))).
  { unfold wf_device, CInt.is_uint32. cbn. repeat constructor; lia. }
  split; [exact Hwf |].
  destruct (dispatch_counts sample_resolver sample_config (fx_heatmap_start sample_host)
              [press 2; press 9; press 2; OtherEvent 0; press 2] Hwf eq_refl)
    as (rs & w' & E & _ & _ & _ & Hk & Hreq).
  exists rs, w'. split; [exact E |]. split; [| exact Hreq].
  exact (Hk 2%nat 5 eq_refl).
Defined.

Lemma render_frame_content_witness :
  wf_device sample_config sample_data /\
  map_in_range sample_config (length sample_pixels) /\
  NoDup (pixel_map sample_config) /\
  exists max_count pixels' hue px,
    find_max_count sample_config sample_data = Ok max_count /\
    fx_heatmap_render_frame Z sample_hsl_to_rgb sample_blend
      sample_config sample_data sample_pixels = Ok pixels' /\
    pixel_hue sample_config 5 max_count = Ok hue /\
    sample_pixels !! 2%nat = Some px /\
    pixels' !! 2%nat = Some (mk_pixel (position_x px) (position_y px) hue).
Proof.
  assert (Hwf : wf_device sample_config sample_data).
  { unfold wf_device, CInt.is_uint32. cbn. repeat constructor; lia. }
  assert (Hin : map_in_range sample_config (length sample_pixels)).
  { unfold map_in_range. cbn. repeat constructor; lia. }
  assert (Hnd : NoDup (pixel_map sample_config)).
  { cbn. repeat constructor; rewrite ?elem_of_cons, ?elem_of_nil; lia. }
  split; [exact Hwf |]. split; [exact Hin |]. split; [exact Hnd |].
  destruct (render_frame_content Z sample_hsl_to_rgb sample_blend
              sample_config sample_data sample_pixels Hwf Hin Hnd)
    as (max_count & pixels' & Em & E & H).
  destruct (H 2%nat 2%nat 5 eq_refl eq_refl) as (hue & px & Eh & Hpx & Hout).
  exists max_count, pixels', hue, px. repeat split; assumption.
Defined.

Lemma render_after_init_witness :
  exists w0 pixels',
    fx_heatmap_init sample_config sample_host = Ok (0, w0) /\
    fx_heatmap_render_frame Z sample_hsl_to_rgb sample_blend
      sample_config (dev_data w0) sample_pixels = Ok pixels' /\
    pixels' !! 1%nat = Some (mk_pixel 1 0 0).
Proof.
  assert (Hin : map_in_range sample_config (length sample_pixels)).
  { unfold map_in_range. cbn. repeat constructor; lia. }
  assert (Hnd : NoDup (pixel_map sample_config)).
  { cbn. repeat constructor; rewrite ?elem_of_cons, ?elem_of_nil; lia. }
  destruct (render_after_init Z sample_hsl_to_rgb sample_blend sample_config sample_host
              sample_pixels eq_refl eq_refl ltac:(cbn; lia) Hin Hnd)
    as (w0 & pixels' & Ei & E & H).
  exists w0, pixels'. split; [exact Ei |]. split; [exact E |].
  destruct (H 1%nat 1%nat eq_refl) as (px & Hpx & Hout).
  cbn in Hpx. injection Hpx as <-. exact Hout.
Defined.

Lemma fresh_instance_counts_witness :
  exists w0 rs w',
    fx_heatmap_init sample_config (mk_host (initial_data sample_config) []) = Ok (0, w0) /\
    dispatch sample_resolver sample_config (fx_heatmap_start w0)
      [press 2; press 9; press 2; OtherEvent 0; press 0] = Ok (rs, w') /\
    key_counts (dev_data w') !! 2%nat = Some 2 /\
    frame_requests w' = [1; 1; 1; 1].
Proof.
  destruct (fresh_instance_counts sample_resolver sample_config
              [press 2; press 9; press 2; OtherEvent 0; press 0] eq_refl)
    as (w0 & rs & w' & Ei & E & Hk & Hreq).
  exists w0, rs, w'. split; [exact Ei |]. split; [exact E |]. split; [| exact Hreq].
  apply (Hk 2%nat). cbn. lia.
Defined.

(** ** The cast and the value of the product *)

Lemma pos_pow_1_l (p : positive) : (1 ^ p)%positive = 1%positive.
Proof. apply Pos2Z.inj. rewrite Pos2Z.inj_pow. apply Z.pow_1_l. lia. Qed.

(** The cast of a finite [float] yields the integer that discarding the
    fraction of its value leaves. *)
Lemma truncate_to_Q (x : Float32.float) (t : Z) :
  Float32.truncate x = Some t ->
  exists q, Float32.to_Q x = Some q /\ t = Q_toward_zero q.
Proof.
  destruct x as [sx | sx | | sx m e]; cbn [Float32.truncate Float32.to_Q];
    intros H; try discriminate; injection H as <-.
  - exists 0%Q. split; reflexivity.
  - eexists. split; [reflexivity |].
    unfold Q_toward_zero. destruct e as [| p | p].
    + change (2 ^ 0)%Q with 1%Q. unfold Qmult, inject_Z. cbn [Qnum Qden].
      rewrite Z.mul_1_r, Z.quot_1_r. reflexivity.
    + change ((2 ^ Z.pos p)%Q) with (Qpower_positive (2 # 1) p).
      rewrite Qpower_decomp_positive. unfold Qmult, inject_Z. cbn [Qnum Qden].
      rewrite pos_pow_1_l, Z.quot_1_r, Z.shiftl_mul_pow2 by lia.
      destruct sx; cbn [cond_Zopp]; lia.
    + change ((2 ^ Z.neg p)%Q) with (/ Qpower_positive (2 # 1) p)%Q.
      rewrite Qpower_decomp_positive, pos_pow_1_l.
      rewrite <- Pos2Z.inj_pow. unfold Qinv, Qmult, inject_Z. cbn [Qnum Qden].
      rewrite Z.mul_1_r, Pos.mul_1_l.
      change (Z.shiftl (Z.pos m) (Z.neg p)) with (Z.shiftr (Z.pos m) (Z.pos p)).
      rewrite Z.shiftr_div_pow2, <- Pos2Z.inj_pow by lia.
      destruct sx; cbn [cond_Zopp].
      * rewrite <- (Z.quot_div_nonneg (Z.pos m)) by lia.
        change (Z.neg m) with (- Z.pos m). rewrite Z.quot_opp_l by lia. reflexivity.
      * now rewrite Z.quot_div_nonneg by lia.
Qed.

Lemma to_int16_truncate (x : Float32.float) (z : Z) :
  Float32.to_int16 x = Ok z -> Float32.truncate x = Some z.
Proof.
  unfold Float32.to_int16. destruct (Float32.truncate x) as [t |]; [| discriminate].
  destruct ((-32768 <=? t) && (t <=? 32767)); [| discriminate].
  intros H. injection H as <-. reflexivity.
Qed.

(** C1 (amended): for every slot, the offset added to the cold hue is the
    single-precision product of delta and usage with its fraction discarded
    toward zero (not rounded to nearest); it lies between 0 and delta, is 0
    for a count of 0 and the whole delta for a count equal to the maximum;
    the hue always lies in [0, 360), and whenever cold hue plus offset is
    not negative the hue is that sum modulo 360, also from 360 upwards. *)
Theorem pixel_hue_in_range (config : fx_heatmap_config) (data : fx_heatmap_data)
    (i : nat) (c : Z) :
  wf_device config data ->
  key_counts data !! i = Some c ->
  exists max_count product off hue,
    find_max_count config data = Ok max_count /\
    Float32.to_Q
      (Float32.mul (Float32.of_Z (hue_delta_of config))
         (Float32.div (Float32.of_Z c) (Float32.of_Z max_count))) = Some product /\
    off = Q_toward_zero product /\
    (if hue_delta_of config <? 0 then hue_delta_of config <= off <= 0
     else 0 <= off <= hue_delta_of config) /\
    (c = 0 -> off = 0) /\
    (c = max_count -> off = hue_delta_of config) /\
    hue_offset (hue_delta_of config) (usage_of c max_count) = Ok off /\
    pixel_hue config c max_count = Ok hue /\
    0 <= hue < 360 /\
    (valid_hues config -> 0 <= color_cold_hue config + off ->
     hue = (color_cold_hue config + off) mod 360).
Proof.
  intros (_ & Hlen & Hu) Hc.
  destruct (spec_max_count_bounds (key_counts data) Hu) as [HM Hall].
  specialize (Hall i c Hc).
  set (max_count := spec_max_count (key_counts data)) in *.
  destruct (hue_offset_defined config c max_count Hall HM) as (off & E & Hoff).
  destruct (truncate_to_Q _ off (to_int16_truncate _ off E)) as (product & Eq & Et).
  exists max_count, product, off. eexists.
  split; [now apply find_max_count_spec |].
  split; [exact Eq |]. split; [exact Et |]. split; [exact Hoff |].
  split; [| split].
  - intros ->. rewrite usage_of_zero in E by assumption.
    rewrite hue_offset_at_zero in E; [congruence |].
    pose proof (hue_delta_of_range config). change (2 ^ 24) with 16777216. lia.
  - intros ->. rewrite usage_of_full in E by assumption.
    rewrite hue_offset_at_one in E by apply hue_delta_of_int16. congruence.
  - split; [exact E |]. split; [apply pixel_hue_formula; exact E |].
    split; [apply Z.mod_pos_bound; lia |].
    intros [Hcold _] Hsum. pose proof (hue_delta_of_range config).
    unfold CInt.to_uint16.
    rewrite (Z.mod_small (color_cold_hue config + off) 65536); [reflexivity |].
    destruct (hue_delta_of config <? 0); lia.
Qed.

Lemma pixel_hue_in_range_witness :
  wf_device upward_config (mk_data [3; 4] true) /\
  valid_hues upward_config /\
  exists product,
    Float32.to_Q
      (Float32.mul (Float32.of_Z 20) (Float32.div (Float32.of_Z 3) (Float32.of_Z 4)))
      = Some product /\
    Q_toward_zero product = 15 /\
    pixel_hue upward_config 3 4 = Ok 5.
Proof.
  assert (Hwf : wf_device upward_config (mk_data [3; 4] true)).
  { unfold wf_device, CInt.is_uint32. cbn. repeat constructor; lia. }
  assert (Hv : valid_hues upward_config) by (unfold valid_hues; cbn; lia).
  split; [exact Hwf |]. split; [exact Hv |].
  destruct (pixel_hue_in_range upward_config (mk_data [3; 4] true) 0 3 Hwf eq_refl)
    as (max_count & product & off & hue & Em & Eq & Et & _ & _ & _ & Eo & Eh & _ & Hmod).
  assert (Emax : find_max_count upward_config (mk_data [3; 4] true) = Ok 4) by reflexivity.
  rewrite Emax in Em. injection Em as <-.
  assert (Eoff : hue_offset (hue_delta_of upward_config) (usage_of 3 4) = Ok 15)
    by reflexivity.
  rewrite Eoff in Eo. injection Eo as <-.
  exists product. split; [exact Eq |]. split; [now symmetry |].
  rewrite Eh. f_equal. apply Hmod; [exact Hv | cbn; lia].
Defined.

(** C2 (defect of the code): the delta is the one of the shorter arc, -20
    from cold 10 to hot 350, but the interpolation does not follow that
    arc: the hues of counts 0, 5, 10, 11, 15 and 20 out of 20 come out as
    10, 5, 0, 15, 11 and 6 where the arc runs 10, 5, 0, 359, 355, 350; hue
    15 lies off the arc and the slot with the maximum does not reach the
    hot hue. *)
Theorem shorter_arc_left_at_wrap :
  valid_hues downward_config /\
  hue_delta_of downward_config = -20 /\
  map (fun c => pixel_hue downward_config c 20) [0; 5; 10; 11; 15; 20] =
    [Ok 10; Ok 5; Ok 0; Ok 15; Ok 11; Ok 6] /\
  map (fun c => spec_hue 10 350 c 20) [0; 5; 10; 11; 15; 20] =
    [10; 5; 0; 359; 355; 350] /\
  ~ (350 <= 15 \/ 15 <= 10) /\
  fx_heatmap_render_frame Z sample_hsl_to_rgb sample_blend
    downward_config (mk_data [11; 20] true) [mk_pixel 0 0 0; mk_pixel 1 0 0] =
  Ok [mk_pixel 0 0 15; mk_pixel 1 0 6].
Proof.
  split; [unfold valid_hues; cbn; lia |].
  split; [reflexivity |]. split; [vm_compute; reflexivity |].
  split; [vm_compute; reflexivity |]. split; [lia |]. vm_compute. reflexivity.
Qed.

Lemma negative_sum_hue_witness :
  hue_offset (hue_delta_of downward_config) (usage_of 3 4) = Ok (-15) /\
  color_cold_hue downward_config + -15 < 0 /\
  pixel_hue downward_config 3 4 = Ok 11.
Proof.
  destruct (negative_sum_hue downward_config 3 4) as (off & E & H);
    [unfold valid_hues; cbn; lia | lia | lia |].
  assert (Eoff : hue_offset (hue_delta_of downward_config) (usage_of 3 4) = Ok (-15))
    by reflexivity.
  rewrite Eoff in E. injection E as <-.
  split; [exact Eoff |]. split; [cbn; lia |].
  apply H. cbn. lia.
Defined.

(** ** Every slot is written, wherever its map entry points *)

Section FrameWrites.

Variable rgb : Type.
Variable hsl_to_rgb : zmk_color_hsl -> rgb.
Variable blend : rgb -> rgb -> Z -> rgb.

Local Abbreviation loop := (render_loop rgb hsl_to_rgb blend).
Local Abbreviation render_frame := (fx_heatmap_render_frame rgb hsl_to_rgb blend).

(** The pixel that a slot of hue [hue] leaves where it found [px]. *)
Local Abbreviation write config px hue :=
  (mk_pixel (position_x px) (position_y px)
     (blend (value px)
        (hsl_to_rgb (mk_hsl hue (saturation config) (lightness config)))
        (blending_mode config))).

Lemma hues_exist (config : fx_heatmap_config) (counts : list Z) (max_count : Z) :
  (forall j c, counts !! j = Some c -> 0 <= c <= max_count) ->
  1 <= max_count < 2 ^ 32 ->
  exists hues, Forall2 (fun c hue => pixel_hue config c max_count = Ok hue) counts hues.
Proof.
  intros Hall HM. induction counts as [| c counts IH].
  - exists []. constructor.
  - destruct IH as [hues Hh]; [intros j; apply (Hall (S j)) |].
    destruct (pixel_hue_defined config c max_count (Hall 0%nat c eq_refl) HM)
      as (hue & Eh & _).
    exists (hue :: hues). now constructor.
Qed.

(** With every map entry inside the buffer, each position ends with the
    hues of the remaining slots that name it written over its pixel, in
    slot order. *)
Lemma render_loop_writes (config : fx_heatmap_config) (counts hues : list Z)
    (max_count : Z) (remaining i : nat) (pixels : list (rgb_fx_pixel rgb)) :
  (i + remaining = length counts)%nat ->
  length (pixel_map config) = length counts ->
  Forall2 (fun c hue => pixel_hue config c max_count = Ok hue) counts hues ->
  map_in_range config (length pixels) ->
  exists pixels',
    loop config counts max_count remaining i pixels = Ok pixels' /\
    length pixels' = length pixels /\
    forall p px, pixels !! p = Some px ->
      pixels' !! p =
        Some (fold_left (fun acc hue => write config acc hue)
                (hues_at p (drop i (pixel_map config)) (drop i hues)) px).
Proof.
  revert i pixels. induction remaining as [| remaining IH];
    intros i pixels Hlen Hmap Hh Hin.
  - exists pixels. split; [reflexivity |]. split; [reflexivity |].
    intros p px Hpx. rewrite (drop_ge (pixel_map config)) by lia. exact Hpx.
  - destruct (lookup_lt_is_Some_2 counts i ltac:(lia)) as [c Hc].
    destruct (Forall2_lookup_l _ _ _ _ _ Hh Hc) as (hue & Hhue & Eh).
    destruct (lookup_lt_is_Some_2 (pixel_map config) i ltac:(lia)) as [q Hq].
    assert (Hql : (q < length pixels)%nat) by exact (Forall_lookup_1 _ _ _ _ Hin Hq).
    destruct (lookup_lt_is_Some_2 pixels q Hql) as [pxq Hpxq].
    rewrite (render_loop_step rgb hsl_to_rgb blend config counts max_count remaining i
               pixels c hue q pxq Hc Eh Hq Hpxq).
    set (pixels1 := <[q := _]> pixels).
    destruct (IH (S i) pixels1) as (out & E & Hl & Hw);
      [lia | exact Hmap | exact Hh
       | unfold pixels1, map_in_range; now rewrite length_insert |].
    exists out. split; [exact E |].
    split; [rewrite Hl; unfold pixels1; apply length_insert |].
    intros p px Hpx.
    rewrite (drop_S _ _ _ Hq), (drop_S _ _ _ Hhue). cbn [hues_at].
    destruct (Nat.eqb_spec q p) as [-> | Hne].
    + rewrite Hpxq in Hpx. injection Hpx as <-. cbn [fold_left].
      apply Hw. unfold pixels1. now apply list_lookup_insert_eq.
    + apply Hw. unfold pixels1. now rewrite list_lookup_insert_ne.
Qed.

(** The loop runs into the first map entry that lies outside the buffer. *)
Lemma render_loop_stray (config : fx_heatmap_config) (counts : list Z)
    (max_count : Z) (remaining i0 i p : nat) (pixels : list (rgb_fx_pixel rgb)) :
  (i0 + remaining = length counts)%nat ->
  length (pixel_map config) = length counts ->
  (forall j c, counts !! j = Some c -> 0 <= c <= max_count) ->
  1 <= max_count < 2 ^ 32 ->
  (i0 <= i)%nat ->
  pixel_map config !! i = Some p ->
  (length pixels <= p)%nat ->
  (forall j q, (i0 <= j < i)%nat -> pixel_map config !! j = Some q ->
               (q < length pixels)%nat) ->
  loop config counts max_count remaining i0 pixels = Undefined (OobPixels p).
Proof.
  revert i0 pixels. induction remaining as [| remaining IH];
    intros i0 pixels Hlen Hmap Hall HM Hi Hp Hout Hbefore.
  - apply lookup_lt_Some in Hp. lia.
  - destruct (lookup_lt_is_Some_2 counts i0 ltac:(lia)) as [c Hc].
    destruct (pixel_hue_defined config c max_count (Hall i0 c Hc) HM) as (hue & Eh & _).
    destruct (lookup_lt_is_Some_2 (pixel_map config) i0 ltac:(lia)) as [q Hq].
    destruct (Nat.eq_dec i0 i) as [-> | Hne].
    + rewrite Hp in Hq. injection Hq as <-.
      cbn [render_loop]. rewrite (load_lookup _ _ _ _ Hc). cbn [obind].
      rewrite Eh. cbn [obind]. rewrite (load_lookup _ _ _ _ Hp). cbn [obind].
      unfold load at 1. rewrite (lookup_ge_None_2 pixels p Hout). reflexivity.
    + assert (Hql : (q < length pixels)%nat) by (apply (Hbefore i0 q); [lia | exact Hq]).
      destruct (lookup_lt_is_Some_2 pixels q Hql) as [pxq Hpxq].
      rewrite (render_loop_step rgb hsl_to_rgb blend config counts max_count remaining i0
                 pixels c hue q pxq Hc Eh Hq Hpxq).
      apply IH; try assumption; try lia.
      * now rewrite length_insert.
      * intros j q' Hj Hq'. rewrite length_insert. apply (Hbefore j q'); [lia | exact Hq'].
Qed.

(** C9 (amended): the function has no bounds check of its own; every slot,
    in slot order, blends its colour into the buffer position its map entry
    names.  When every entry lies inside the buffer the call completes with
    every access inside it: the buffer keeps its length and every position
    holds its previous pixel with the colours of the slots that name it
    blended in, in slot order, so a position that no slot names is
    unchanged.  An entry outside the buffer is not skipped: the call runs
    into the access at that index, at the first such slot. *)
Theorem render_frame_unguarded (config : fx_heatmap_config)
    (data : fx_heatmap_data) (pixels : list (rgb_fx_pixel rgb)) :
  wf_device config data ->
  (map_in_range config (length pixels) ->
   exists max_count hues pixels',
     find_max_count config data = Ok max_count /\
     Forall2 (fun c hue => pixel_hue config c max_count = Ok hue) (key_counts data) hues /\
     render_frame config data pixels = Ok pixels' /\
     length pixels' = length pixels /\
     forall p px, pixels !! p = Some px ->
       pixels' !! p =
         Some (fold_left (fun acc hue => write config acc hue)
                 (hues_at p (pixel_map config) hues) px)) /\
  (forall i p,
     pixel_map config !! i = Some p ->
     (length pixels <= p)%nat ->
     (forall j q, (j < i)%nat -> pixel_map config !! j = Some q ->
                  (q < length pixels)%nat) ->
     render_frame config data pixels = Undefined (OobPixels p)).
Proof.
  intros (Hmap & Hlen & Hu).
  destruct (spec_max_count_bounds (key_counts data) Hu) as [HM Hall].
  unfold fx_heatmap_render_frame.
  rewrite (find_max_count_spec config data Hlen). cbn [obind].
  split.
  - intros Hin.
    destruct (hues_exist config (key_counts data) _ Hall HM) as [hues Hh].
    destruct (render_loop_writes config (key_counts data) hues _ (pixel_map_size config)
                0 pixels ltac:(lia) ltac:(lia) Hh Hin) as (pixels' & E & Hl & Hw).
    exists (spec_max_count (key_counts data)), hues, pixels'.
    split; [reflexivity |]. split; [exact Hh |]. split; [exact E |].
    split; [exact Hl |]. exact Hw.
  - intros i p Hp Hout Hbefore.
    apply (render_loop_stray config (key_counts data) _ (pixel_map_size config) 0 i p pixels);
      try assumption; try lia.
    intros j q [_ Hj]. now apply Hbefore.
Qed.

End FrameWrites.

Lemma render_frame_unguarded_witness :
  wf_device sample_config sample_data /\
  map_in_range sample_config (length sample_pixels) /\
  (exists pixels' px,
     fx_heatmap_render_frame Z sample_hsl_to_rgb sample_blend
       sample_config sample_data sample_pixels = Ok pixels' /\
     pixels' !! 1%nat = Some px) /\
  wf_device stray_config sample_data /\
  fx_heatmap_render_frame Z sample_hsl_to_rgb sample_blend
    stray_config sample_data sample_pixels = Undefined (OobPixels 7).
Proof.
  assert (Hwf : wf_device sample_config sample_data).
  { unfold wf_device, CInt.is_uint32. cbn. repeat constructor; lia. }
  assert (Hin : map_in_range sample_config (length sample_pixels)).
  { unfold map_in_range. cbn. repeat constructor; lia. }
  assert (Hwf' : wf_device stray_config sample_data).
  { unfold wf_device, CInt.is_uint32. cbn. repeat constructor; lia. }
  split; [exact Hwf |]. split; [exact Hin |]. split; [| split; [exact Hwf' |]].
  - destruct (render_frame_unguarded Z sample_hsl_to_rgb sample_blend
                sample_config sample_data sample_pixels Hwf) as [Hok _].
    destruct (Hok Hin) as (max_count & hues & pixels' & _ & _ & E & _ & Hw).
    exists pixels'. eexists. split; [exact E |].
    apply (Hw 1%nat (mk_pixel 1 0 2)). reflexivity.
  - destruct (render_frame_unguarded Z sample_hsl_to_rgb sample_blend
                stray_config sample_data sample_pixels Hwf') as [_ Hstray].
    apply (Hstray 1%nat 7%nat); [reflexivity | cbn; lia |].
    intros j q Hj Hq. destruct j as [| j]; [| lia].
    cbn in Hq. injection Hq as <-. cbn. lia.
Defined.
